(** * Real-estate dashboard: the price and space codecs and the listing table

    A shallow embedding of [code.py]: the helper functions [parse_price],
    [parse_space] and [format_price_for_csv], the loader and the saver of the
    table, the add-project handler and [filter_df].

    Conventions of the embedding.
    - Text is [string]; the character classes, [strip], [upper] and [lower]
      are Python's on 7-bit ASCII.  Characters from 128 on are carried along
      unchanged and belong to no class.
    - A Python number is [num]: an unbounded [int] or a [float].  A float is
      an IEEE 754 binary64 value ([spec_float] of the Standard Library at
      precision 53 and maximal exponent 1024); every arithmetic operation is
      the exact rational result rounded to nearest, ties to even.
    - A Python call that can raise returns [result]; the exception aborts the
      function, as in Python.
    - A data-frame cell of a text column is [cell]: the missing-value marker
      [NA] (the value [pd.isna] recognises) or a text. *)

From Stdlib Require Import ZArith QArith Qpower Qabs Qround Lqa Lia.
From Stdlib Require Import List String Ascii Bool.
From Stdlib Require Import SpecFloat.
Import ListNotations.

Open Scope Z_scope.

(* ================================================================== *)
(** * Python values                                                   *)
(* ================================================================== *)

Inductive exn : Type :=
| ValueError
| OverflowError
| KeyError.

Inductive result (A : Type) : Type :=
| Ok (a : A)
| Raise (e : exn).

Arguments Ok {A} a.
Arguments Raise {A} e.

Definition bind {A B : Type} (r : result A) (k : A -> result B) : result B :=
  match r with
  | Ok a => k a
  | Raise e => Raise e
  end.

Notation "x <- r ;; k" := (bind r (fun x => k))
  (at level 61, r at next level, right associativity).


(** A cell of a text column. *)
Inductive cell : Type :=
| NA
| Text (s : string).

(** [str(x)] of a cell: the text itself, ["nan"] for the missing value. *)
Definition str_cell (c : cell) : string :=
  match c with
  | NA => "nan"
  | Text s => s
  end.

(** Truth value of a text: non-empty. *)
Definition truthy (s : string) : bool :=
  match s with
  | EmptyString => false
  | String _ _ => true
  end.

(* ================================================================== *)
(** * Text: character classes, strip, upper, lower                    *)
(* ================================================================== *)

Definition code (c : ascii) : Z := Z.of_nat (nat_of_ascii c).

(** [\d] *)
Definition is_digit (c : ascii) : bool := (48 <=? code c) && (code c <=? 57).

(** [[\d.]] *)
Definition is_digit_or_dot (c : ascii) : bool := is_digit c || (code c =? 46).

(** [\s] and [str.isspace]: tab, line feed, vertical tab, form feed, carriage
    return, the four separators 28..31 and the space. *)
Definition is_space (c : ascii) : bool :=
  ((9 <=? code c) && (code c <=? 13)) ||
  ((28 <=? code c) && (code c <=? 31)) ||
  (code c =? 32).

(** [[MK]] *)
Definition is_MK (c : ascii) : bool := (code c =? 77) || (code c =? 75).

Definition to_upper (c : ascii) : ascii :=
  if (97 <=? code c) && (code c <=? 122)
  then ascii_of_nat (nat_of_ascii c - 32) else c.

Definition to_lower (c : ascii) : ascii :=
  if (65 <=? code c) && (code c <=? 90)
  then ascii_of_nat (nat_of_ascii c + 32) else c.

Fixpoint smap (f : ascii -> ascii) (s : string) : string :=
  match s with
  | EmptyString => EmptyString
  | String c s' => String (f c) (smap f s')
  end.

Definition upper : string -> string := smap to_upper.
Definition lower : string -> string := smap to_lower.

Fixpoint lstrip (s : string) : string :=
  match s with
  | EmptyString => EmptyString
  | String c s' => if is_space c then lstrip s' else s
  end.

Fixpoint rstrip (s : string) : string :=
  match s with
  | EmptyString => EmptyString
  | String c s' =>
      match rstrip s' with
      | EmptyString => if is_space c then EmptyString else String c EmptyString
      | r => String c r
      end
  end.

Definition strip (s : string) : string := rstrip (lstrip s).

(** The longest prefix of characters of a class, and what follows it. *)
Fixpoint span (p : ascii -> bool) (s : string) : string * string :=
  match s with
  | EmptyString => (EmptyString, EmptyString)
  | String c s' =>
      if p c then let (a, b) := span p s' in (String c a, b)
      else (EmptyString, s)
  end.

Fixpoint sall (p : ascii -> bool) (s : string) : bool :=
  match s with
  | EmptyString => true
  | String c s' => p c && sall p s'
  end.

(* ================================================================== *)
(** * Regular expressions: the fragment the two patterns use          *)
(* ================================================================== *)

Module Regex.

(** Greedy repetition of a character class, a capturing group, and
    concatenation.  Groups are numbered in the order they close, which for
    groups that do not nest is the order they open. *)
Inductive regex : Type :=
| CharPlus (p : ascii -> bool)
| CharStar (p : ascii -> bool)
| CharOpt (p : ascii -> bool)
| Group (r : regex)
| Seq (r1 r2 : regex).

Definition captures := list string.

Section Backtrack.
Context {A : Type}.

(** [p*]: take the longest run first and give characters back one at a
    time while the rest of the pattern fails. *)
Fixpoint star (p : ascii -> bool) (s : string) (k : string -> option A)
  : option A :=
  match s with
  | EmptyString => k EmptyString
  | String c s' =>
      if p c then
        match star p s' k with
        | Some a => Some a
        | None => k s
        end
      else k s
  end.

Definition plus (p : ascii -> bool) (s : string) (k : string -> option A)
  : option A :=
  match s with
  | EmptyString => None
  | String c s' => if p c then star p s' k else None
  end.

Definition opt (p : ascii -> bool) (s : string) (k : string -> option A)
  : option A :=
  match s with
  | EmptyString => k EmptyString
  | String c s' =>
      if p c then
        match k s' with
        | Some a => Some a
        | None => k s
        end
      else k s
  end.
End Backtrack.

(** The text a group consumed: what was there before, less what is left. *)
Definition consumed (before after : string) : string :=
  substring 0 (String.length before - String.length after) before.

Fixpoint run {A : Type} (r : regex) (s : string) (caps : captures)
         (k : string -> captures -> option A) : option A :=
  match r with
  | CharPlus p => plus p s (fun s' => k s' caps)
  | CharStar p => star p s (fun s' => k s' caps)
  | CharOpt p => opt p s (fun s' => k s' caps)
  | Group r' => run r' s caps (fun s' caps' => k s' (caps' ++ [consumed s s']))
  | Seq r1 r2 => run r1 s caps (fun s' caps' => run r2 s' caps' k)
  end.

(** [re.match(r, s)]: anchored at the start, not at the end. *)
Definition re_match (r : regex) (s : string) : option captures :=
  run r s [] (fun _ caps => Some caps).

(** [m.group(i)], [i >= 1]. *)
Definition group (m : captures) (i : nat) : string :=
  nth (i - 1) m EmptyString.

End Regex.

(** [r'([\d.]+)\s*([MK]?)'] *)
Definition price_re : Regex.regex :=
  Regex.Seq (Regex.Group (Regex.CharPlus is_digit_or_dot))
    (Regex.Seq (Regex.CharStar is_space)
       (Regex.Group (Regex.CharOpt is_MK))).

(** [r'([\d.]+)'] *)
Definition space_re : Regex.regex :=
  Regex.Group (Regex.CharPlus is_digit_or_dot).

(* ================================================================== *)
(** * Decimal numerals                                                *)
(* ================================================================== *)

Definition digit_char (d : Z) : ascii := ascii_of_nat (48 + Z.to_nat d).
Definition digit_val (c : ascii) : Z := code c - 48.

Fixpoint digits_acc (fuel : nat) (n : Z) (acc : string) : string :=
  match fuel with
  | O => acc
  | S fuel' =>
      let acc' := String (digit_char (n mod 10)) acc in
      if n <? 10 then acc' else digits_acc fuel' (n / 10) acc'
  end.

(** The decimal numeral of [n >= 0]; it has no more digits than [n] has
    bits, which bounds the recursion. *)
Definition str_nat (n : Z) : string :=
  digits_acc (S (Z.to_nat (Z.log2 n))) n EmptyString.

(** [str(z)] of an [int]. *)
Definition str_int (z : Z) : string :=
  if z <? 0 then String "-" (str_nat (- z)) else str_nat z.

(** The numeral of [k / 10] with one decimal place, for [k >= 0]: the
    digits of [k div 10], a point, the digit [k mod 10]. *)
Definition one_decimal (k : Z) : string :=
  str_nat (k / 10) ++ "." ++ str_nat (k mod 10).

(** The number a string of digits denotes, most significant digit first. *)
Fixpoint digits_val (acc : Z) (s : string) : Z :=
  match s with
  | EmptyString => acc
  | String c s' => digits_val (10 * acc + digit_val c) s'
  end.

(* ================================================================== *)
(** * Binary64 floating point                                         *)
(* ================================================================== *)

Module Binary64.

Definition float : Type := spec_float.

(** The integer nearest to [n / d], ties to the even one ([0 <= n],
    [0 < d]). *)
Definition round_half_even (n d : Z) : Z :=
  let q := n / d in
  match 2 * (n mod d) ?= d with
  | Lt => q
  | Gt => q + 1
  | Eq => if Z.even q then q else q + 1
  end.

(** [n / d < 2 ^ e] for positive [n] and [d]. *)
Definition below_pow2 (n d e : Z) : bool :=
  if 0 <=? e then n <? d * 2 ^ e else n * 2 ^ (- e) <? d.

(** The [e] with [2 ^ e <= n / d < 2 ^ (e + 1)] for positive [n], [d]. *)
Definition floor_log2 (n d : Z) : Z :=
  let e := Z.log2 n - Z.log2 d in
  if below_pow2 n d e then e - 1 else e.

(** [n / (d * 2 ^ ex)] rounded to an integer. *)
Definition scaled_round (n d ex : Z) : Z :=
  if 0 <=? ex then round_half_even n (d * 2 ^ ex)
  else round_half_even (n * 2 ^ (- ex)) d.

(** Round the magnitude [q >= 0], with sign bit [s], to the nearest
    binary64 value, ties to even: 53 significant bits, the least exponent
    of a unit in the last place is -1074 (gradual underflow), and a result
    of [2 ^ 1024] or more is an infinity. *)
Definition round64 (s : bool) (q : Q) : float :=
  let n := Qnum q in
  let d := Zpos (Qden q) in
  if n <=? 0 then S754_zero s
  else
    let e := floor_log2 n d in
    let ex := Z.max (e - 52) (-1074) in
    let m := scaled_round n d ex in
    let '(m, ex) := if m =? 2 ^ 53 then (2 ^ 52, ex + 1) else (m, ex) in
    match m with
    | Zpos p => if ex <=? 971 then S754_finite s p ex else S754_infinity s
    | _ => S754_zero s
    end.

(** The magnitude of a finite float, exactly. *)
Definition magnitude (x : float) : Q :=
  match x with
  | S754_finite _ m e => inject_Z (Zpos m) * 2 ^ e
  | _ => 0
  end.

Definition sign_bit (x : float) : bool :=
  match x with
  | S754_zero s | S754_infinity s | S754_finite s _ _ => s
  | S754_nan => false
  end.

(** The value of a finite float, exactly. *)
Definition F2Q (x : float) : Q :=
  if sign_bit x then - magnitude x else magnitude x.

Definition is_finite (x : float) : bool :=
  match x with
  | S754_zero _ | S754_finite _ _ _ => true
  | _ => false
  end.

(** [x * y] *)
Definition fmul (x y : float) : float :=
  match x, y with
  | S754_nan, _ | _, S754_nan => S754_nan
  | S754_infinity _, S754_zero _ | S754_zero _, S754_infinity _ => S754_nan
  | S754_infinity sx, (S754_infinity sy | S754_finite sy _ _)
  | S754_finite sx _ _, S754_infinity sy => S754_infinity (xorb sx sy)
  | S754_zero sx, (S754_zero sy | S754_finite sy _ _)
  | S754_finite sx _ _, S754_zero sy => S754_zero (xorb sx sy)
  | S754_finite sx _ _, S754_finite sy _ _ =>
      round64 (xorb sx sy) (magnitude x * magnitude y)
  end.

(** [x / y] for a divisor that is finite and not zero. *)
Definition fdiv (x y : float) : float :=
  match x, y with
  | S754_nan, _ | _, S754_nan => S754_nan
  | S754_infinity _, S754_infinity _ | S754_zero _, S754_zero _ => S754_nan
  | S754_infinity sx, (S754_zero sy | S754_finite sy _ _)
  | S754_finite sx _ _, S754_zero sy => S754_infinity (xorb sx sy)
  | S754_zero sx, (S754_infinity sy | S754_finite sy _ _)
  | S754_finite sx _ _, S754_infinity sy => S754_zero (xorb sx sy)
  | S754_finite sx _ _, S754_finite sy _ _ =>
      round64 (xorb sx sy) (magnitude x / magnitude y)
  end.

(** The float nearest to an integer. *)
Definition of_Z (z : Z) : float :=
  round64 (z <? 0) (inject_Z (Z.abs z)).

(** [x >= z] for a float and an [int], compared exactly. *)
Definition ge_Z (x : float) (z : Z) : bool :=
  match x with
  | S754_nan => false
  | S754_infinity s => negb s
  | _ => Qle_bool (inject_Z z) (F2Q x)
  end.

(** [x <= z] for a float and an [int], compared exactly. *)
Definition le_Z (x : float) (z : Z) : bool :=
  match x with
  | S754_nan => false
  | S754_infinity s => s
  | _ => Qle_bool (F2Q x) (inject_Z z)
  end.

(** Ten times the magnitude, rounded to an integer, ties to even: the
    digits [format(x, '.1f')] prints. *)
Definition tenths (m : positive) (e : Z) : Z :=
  scaled_round (10 * Zpos m) 1 (- e).

Definition sign_text (s : bool) : string :=
  if s then "-"%string else EmptyString.

(** [f"{x:.1f}"] *)
Definition format_1f (x : float) : string :=
  match x with
  | S754_nan => "nan"
  | S754_infinity s => sign_text s ++ "inf"
  | S754_zero s => sign_text s ++ one_decimal 0
  | S754_finite s m e => sign_text s ++ one_decimal (tenths m e)
  end.

(** [int(x)]: truncation towards zero. *)
Definition to_int (x : float) : result Z :=
  match x with
  | S754_nan => Raise ValueError
  | S754_infinity _ => Raise OverflowError
  | S754_zero _ => Ok 0
  | S754_finite s m e =>
      let a := if 0 <=? e then Zpos m * 2 ^ e else Zpos m / 2 ^ (- e) in
      Ok (if s then - a else a)
  end.

(** [float(s)] on a text of the capture group [([\d.]+)]: digits with at
    most one decimal point and at least one digit, read exactly and
    rounded once.  A second point, or no digit at all, is a [ValueError].
    (Signs, exponents, underscores, [inf] and [nan], which [float] also
    reads, cannot occur in the group and are answered as [ValueError].) *)
Definition of_text (s : string) : result float :=
  let (ip, rest) := span is_digit s in
  match rest with
  | EmptyString =>
      if truthy ip then Ok (round64 false (inject_Z (digits_val 0 ip)))
      else Raise ValueError
  | String c rest' =>
      if code c =? 46 then
        let (fp, rest'') := span is_digit rest' in
        match rest'' with
        | EmptyString =>
            if truthy ip || truthy fp then
              Ok (round64 false
                    (Qmake (digits_val 0 (ip ++ fp))
                       (Z.to_pos (10 ^ Z.of_nat (String.length fp)))))
            else Raise ValueError
        | String _ _ => Raise ValueError
        end
      else Raise ValueError
  end.

End Binary64.

Import Binary64.

(** A Python number: an [int] or a [float]. *)
Inductive num : Type :=
| PyInt (z : Z)
| PyFloat (x : float).

(** [x >= z] *)
Definition num_ge (x : num) (z : Z) : bool :=
  match x with
  | PyInt a => z <=? a
  | PyFloat f => ge_Z f z
  end.

(** [x <= z] *)
Definition num_le (x : num) (z : Z) : bool :=
  match x with
  | PyInt a => a <=? z
  | PyFloat f => le_Z f z
  end.

(** [x / z] for an [int] constant [z > 0]: true division.  Between two
    [int]s it is the exact quotient rounded once, and an [OverflowError]
    when that does not fit a float; a float is divided by the float of
    [z]. *)
Definition num_truediv (x : num) (z : Z) : result float :=
  match x with
  | PyInt a =>
      match round64 (a <? 0) (Qmake (Z.abs a) (Z.to_pos z)) with
      | S754_infinity _ => Raise OverflowError
      | r => Ok r
      end
  | PyFloat f => Ok (fdiv f (of_Z z))
  end.

(** [int(x)] *)
Definition num_int (x : num) : result Z :=
  match x with
  | PyInt a => Ok a
  | PyFloat f => to_int f
  end.

(* ================================================================== *)
(** * The codecs                                                      *)
(* ================================================================== *)

Definition parse_price (price_str : cell) : result num :=
  match price_str with
  | NA => Ok (PyInt 0)
  | Text _ =>
      let price_str := upper (strip (str_cell price_str)) in
      match Regex.re_match price_re price_str with
      | Some m =>
          number <- of_text (Regex.group m 1) ;;
          let multiplier := Regex.group m 2 in
          if String.eqb multiplier "M" then
            Ok (PyFloat (fmul number (of_Z 1000000)))
          else if String.eqb multiplier "K" then
            Ok (PyFloat (fmul number (of_Z 1000)))
          else Ok (PyFloat number)
      | None => Ok (PyInt 0)
      end
  end.

Definition parse_space (space_str : cell) : result num :=
  match space_str with
  | NA => Ok (PyInt 0)
  | Text _ =>
      let space_str := lower (strip (str_cell space_str)) in
      match Regex.re_match space_re space_str with
      | Some m => number <- of_text (Regex.group m 1) ;; Ok (PyFloat number)
      | None => Ok (PyInt 0)
      end
  end.

Definition format_price_for_csv (price_numeric : num) : result string :=
  if num_ge price_numeric 1000000 then
    q <- num_truediv price_numeric 1000000 ;;
    Ok (format_1f q ++ "M")%string
  else if num_ge price_numeric 1000 then
    q <- num_truediv price_numeric 1000 ;;
    Ok (format_1f q ++ "K")%string
  else
    n <- num_int price_numeric ;;
    Ok (str_int n).


(* ================================================================== *)
(** * The table of listings and the file behind it                    *)
(* ================================================================== *)

(** A row of the data frame: the seven text columns of the file and the two
    numeric columns derived from [Price] and [Space]. *)
Record Listing : Type := mkListing {
  DEV : cell;
  PROJ : cell;
  City : cell;
  Dis : cell;
  Type_ : cell;
  Price : cell;
  Space : cell;
  Price_Numeric : num;
  Space_Numeric : num
}.

Definition table : Type := list Listing.

(** [projects_data.csv] as [read_csv] and [to_csv] see it: a line of column
    names and the records, one cell per column.  How cells are written as
    text is left to pandas. *)
Record csv_file : Type := mkCsv {
  header : list string;
  records : list (list cell)
}.

(** The column list of [save_data]. *)
Definition canonical_columns : list string :=
  ["DEV"; "PROJ"; "City"; "Dis"; "Type"; "Price"; "Space"]%string.

Definition canonical_cells (L : Listing) : list cell :=
  [DEV L; PROJ L; City L; Dis L; Type_ L; Price L; Space L].

(** [df[[...]].copy().to_csv(..., index=False)] *)
Definition save_data (df : table) : csv_file :=
  {| header := canonical_columns; records := map canonical_cells df |}.





(** The session: the table in memory and the file on disk. *)
Record session : Type := mkSession {
  df : table;
  disk : csv_file
}.

(** The widgets of the add form: five text inputs and two number inputs
    with [int] bounds and steps, whose values are [int]s. *)
Record add_form : Type := mkForm {
  new_dev : string;
  new_proj : string;
  new_city : string;
  new_dis : string;
  new_type : string;
  new_price : Z;
  new_space : Z
}.

(** What the handler shows: [st.success] followed by [st.rerun()], or
    [st.error] with "Please fill all required fields!". *)
Inductive notice : Type :=
| Success
| Error.

(** The condition of the [if] under the save button. *)
Definition form_complete (f : add_form) : bool :=
  truthy (new_dev f) && truthy (new_proj f) && truthy (new_city f) &&
  truthy (new_dis f) && truthy (new_type f) &&
  (0 <? new_price f) && (0 <? new_space f).

(** The body of [if st.button("Save Project")]. *)
Definition save_project (f : add_form) (w : session)
  : result (session * notice) :=
  if form_complete f then
    price <- format_price_for_csv (PyInt (new_price f)) ;;
    let new_row :=
      {| DEV := Text (new_dev f);
         PROJ := Text (new_proj f);
         City := Text (new_city f);
         Dis := Text (new_dis f);
         Type_ := Text (new_type f);
         Price := Text price;
         Space := Text (str_int (new_space f) ++ "ft");
         Price_Numeric := PyInt (new_price f);
         Space_Numeric := PyInt (new_space f) |} in
    let df' := df w ++ [new_row] in
    Ok ({| df := df'; disk := save_data df' |}, Success)
  else Ok (w, Error).






(* ================================================================== *)
(** * Vocabulary of the statements                                    *)
(* ================================================================== *)

(** What the second group of the price pattern captures on the text that
    follows the spaces: one letter [M] or [K], or nothing. *)
Definition unit_of (rest : string) : string :=
  match rest with
  | String c _ => if is_MK c then String c EmptyString else EmptyString
  | EmptyString => EmptyString
  end.

(** A text does not go on with a character of the class. *)
Definition stops (p : ascii -> bool) (tail : string) : Prop :=
  match tail with
  | EmptyString => True
  | String c _ => p c = false
  end.

(** A numeral: digits, at least one, that denote [n]. *)
Definition numeral (ds : string) (n : Z) : Prop :=
  sall is_digit ds = true /\ truthy ds = true /\
  forall acc,
    digits_val acc ds = acc * 10 ^ Z.of_nat (String.length ds) + n.


(** Half a unit in the last place, relative to the value: [2 ^ -53]. *)
Definition unit_roundoff : Q := 1 # 9007199254740992.

(** The exact value of a number that is not an infinity or a NaN. *)
Definition num_value (x : num) : Q :=
  match x with
  | PyInt z => inject_Z z
  | PyFloat f => F2Q f
  end.

Definition num_finite (x : num) : bool :=
  match x with
  | PyInt _ => true
  | PyFloat f => is_finite f
  end.

(** [decode(encode(x))] of the price codec. *)
Definition decode_encode (x : num) : result num :=
  s <- format_price_for_csv x ;; parse_price (Text s).

(** The two units of the price text, as the constants of the code. *)
Definition is_unit (U : Z) : Prop := U = 1000 \/ U = 1000000.

(** The letter of a unit. *)
Definition unit_text (U : Z) : string :=
  if U =? 1000000 then "M"%string else "K"%string.

(** The largest tenths of a mantissa each unit is re-encoded for. *)
Definition tenths_max (U : Z) : Z :=
  if U =? 1000000 then 1000000000000000 else 9999.

(** Whether encoding the float of [a] gives the numeral of [a] back. *)
Definition reencodes_numeral (a : Z) : bool :=
  match format_price_for_csv (PyFloat (round64 false (inject_Z a))) with
  | Ok s => String.eqb s (str_nat a)
  | Raise _ => false
  end.

(** [y] is what the price [x] is rounded to: below a thousand the float of
    its integer part; from there on the float product of the unit and of the
    float nearest to [k / 10], where [k] is ten times the mantissa [x / U]
    rounded to an integer, the mantissa itself being a float within
    [2 ^ -53] of [x / U]. *)
Definition price_rounding (x y : num) : Prop :=
  (exists a : Z,
      (num_value x < 1000)%Q /\
      (inject_Z a <= num_value x)%Q /\ (num_value x < inject_Z a + 1)%Q /\
      y = PyFloat (round64 false (inject_Z a)))
  \/
  (exists U k : Z,
      is_unit U /\
      (inject_Z U <= num_value x)%Q /\
      (U = 1000 -> (num_value x < 1000000)%Q) /\
      (inject_Z k - 10 * (num_value x / inject_Z U)
         <= (1 # 2) + 10 * (num_value x / inject_Z U) * unit_roundoff)%Q /\
      (10 * (num_value x / inject_Z U) - inject_Z k
         <= (1 # 2) + 10 * (num_value x / inject_Z U) * unit_roundoff)%Q /\
      y = PyFloat (fmul (round64 false (k # 10)) (of_Z U))).

(** A text with exactly one decimal place: digits, a point, one digit. *)
Definition one_place (s : string) : Prop :=
  exists (ip : string) (d : ascii),
    s = (ip ++ String "." (String d EmptyString))%string /\
    sall is_digit ip = true /\ truthy ip = true /\ is_digit d = true.

(** [n] is [v] truncated towards zero. *)
Definition truncation (v : Q) (n : Z) : Prop :=
  (inject_Z (Z.abs n) <= Qabs v)%Q /\ (Qabs v < inject_Z (Z.abs n) + 1)%Q /\
  ((0 <= v)%Q -> 0 <= n) /\ ((v <= 0)%Q -> n <= 0).




(** [lo <= x <= hi], with the comparisons of the program. *)
Definition within (x : num) (lo hi : Z) : Prop :=
  num_ge x lo = true /\ num_le x hi = true.

(** The row the add handler builds from a form and the price text. *)
Definition new_listing (f : add_form) (price : string) : Listing :=
  {| DEV := Text (new_dev f);
     PROJ := Text (new_proj f);
     City := Text (new_city f);
     Dis := Text (new_dis f);
     Type_ := Text (new_type f);
     Price := Text price;
     Space := Text (str_int (new_space f) ++ "ft");
     Price_Numeric := PyInt (new_price f);
     Space_Numeric := PyInt (new_space f) |}.

(** The requirements on a submission. *)
Definition valid_submission (f : add_form) : Prop :=
  new_dev f <> EmptyString /\ new_proj f <> EmptyString /\
  new_city f <> EmptyString /\ new_dis f <> EmptyString /\
  new_type f <> EmptyString /\ 0 < new_price f /\ 0 < new_space f.



(** Equality of floats, constructor by constructor. *)
Definition float_eqb (x y : float) : bool :=
  match x, y with
  | S754_zero s, S754_zero s' | S754_infinity s, S754_infinity s' =>
      Bool.eqb s s'
  | S754_nan, S754_nan => true
  | S754_finite s m e, S754_finite s' m' e' =>
      Bool.eqb s s' && Pos.eqb m m' && Z.eqb e e'
  | _, _ => false
  end.

(** On the mantissa of [k] tenths, the product and the quotient by a unit
    computed here are those of the Standard Library's binary64. *)
Definition agrees_with_SpecFloat (U k : Z) : bool :=
  let x := round64 false (k # 10) in
  float_eqb (fmul x (of_Z U)) (SFmul 53 1024 x (of_Z U)) &&
  float_eqb (fdiv (fmul x (of_Z U)) (of_Z U))
            (SFdiv 53 1024 (SFmul 53 1024 x (of_Z U)) (of_Z U)).

(** Linear arithmetic over the rationals, with the local abbreviations made
    opaque first. *)
Ltac qarith :=
  unfold unit_roundoff in *;
  repeat match goal with
         | x := _ : Q |- _ => clearbody x
         end;
  lra.

(* ================================================================== *)
(** * Facts about text and the regular expressions                    *)
(* ================================================================== *)

Section TextFacts.

Local Open Scope string_scope.

Lemma length_app (a b : string) :
  String.length (a ++ b) = (String.length a + String.length b)%nat.
Proof. induction a as [|c a IH]; simpl; [reflexivity | now rewrite IH]. Qed.

Lemma app_empty_r (a : string) : a ++ EmptyString = a.
Proof. induction a as [|c a IH]; simpl; [reflexivity | now rewrite IH]. Qed.

Lemma app_assoc_s (a b c : string) : (a ++ b) ++ c = a ++ (b ++ c).
Proof. induction a as [|x a IH]; simpl; [reflexivity | now rewrite IH]. Qed.

Lemma substring_prefix (a b : string) :
  substring 0 (String.length a) (a ++ b) = a.
Proof.
  induction a as [|c a IH]; simpl.
  - destruct b; reflexivity.
  - now rewrite IH.
Qed.

Lemma span_app (p : ascii -> bool) (s : string) :
  fst (span p s) ++ snd (span p s) = s.
Proof.
  induction s as [|c s IH]; simpl; [reflexivity|].
  destruct (p c); [|reflexivity].
  destruct (span p s) as [a b]; simpl in *. now rewrite IH.
Qed.

Lemma span_all (p : ascii -> bool) (s : string) :
  sall p (fst (span p s)) = true.
Proof.
  induction s as [|c s IH]; simpl; [reflexivity|].
  destruct (p c) eqn:E; [|reflexivity].
  destruct (span p s) as [a b]; simpl in *. now rewrite E.
Qed.

(** A run of the class followed by a text that does not go on with the
    class is what [span] cuts off. *)
Lemma span_run (p : ascii -> bool) (r tail : string) :
  sall p r = true ->
  stops p tail ->
  span p (r ++ tail) = (r, tail).
Proof.
  induction r as [|c r IH]; simpl; intros Hr Ht.
  - destruct tail as [|c t]; [reflexivity|]. simpl. now rewrite Ht.
  - apply andb_prop in Hr as [Hc Hr]. rewrite Hc, (IH Hr Ht). reflexivity.
Qed.

Lemma consumed_span (p : ascii -> bool) (s : string) :
  Regex.consumed s (snd (span p s)) = fst (span p s).
Proof.
  unfold Regex.consumed.
  rewrite <- (span_app p s) at 1 3.
  rewrite length_app, Nat.add_sub. apply substring_prefix.
Qed.

Lemma consumed_none (s : string) : Regex.consumed s s = EmptyString.
Proof.
  unfold Regex.consumed. rewrite Nat.sub_diag. destruct s; reflexivity.
Qed.

Lemma consumed_one (c : ascii) (s : string) :
  Regex.consumed (String c s) s = String c EmptyString.
Proof.
  unfold Regex.consumed. simpl String.length.
  replace (S (String.length s) - String.length s)%nat with 1%nat by lia.
  simpl. destruct s; reflexivity.
Qed.

(** When the rest of the pattern cannot fail, the greedy star never gives
    a character back. *)
Lemma star_total {A : Type} (p : ascii -> bool) (s : string)
      (k : string -> option A) :
  (forall t, k t <> None) -> Regex.star p s k = k (snd (span p s)).
Proof.
  intros Hk. induction s as [|c s IH]; simpl; [reflexivity|].
  destruct (p c); [|reflexivity].
  rewrite IH. destruct (span p s) as [a b]; simpl.
  destruct (k b) eqn:E; [reflexivity | now apply Hk in E].
Qed.

(** What [re.match] answers for the price pattern: the longest run of
    digits and points, nothing if it is empty; then every space, then one
    letter [M] or [K] if it is there. *)
Lemma price_re_match (t : string) :
  Regex.re_match price_re t =
    match fst (span is_digit_or_dot t) with
    | EmptyString => None
    | String _ _ as r =>
        Some [r; unit_of (snd (span is_space (snd (span is_digit_or_dot t))))]
    end.
Proof.
  unfold Regex.re_match, price_re. cbn [Regex.run].
  destruct t as [|c t]; [reflexivity|].
  cbn [Regex.plus span]. destruct (is_digit_or_dot c) eqn:Hc; [|reflexivity].
  rewrite star_total.
  - pose proof (consumed_span is_digit_or_dot (String c t)) as Hcs.
    cbn [span] in Hcs. rewrite Hc in Hcs.
    destruct (span is_digit_or_dot t) as [a b] eqn:Hsp. cbn [fst snd] in *.
    rewrite Hcs. rewrite star_total.
    + destruct (span is_space b) as [ws rest]. cbn [snd].
      unfold Regex.opt, unit_of.
      destruct rest as [|u rest]; [now rewrite consumed_none|].
      destruct (is_MK u); [now rewrite consumed_one | now rewrite consumed_none].
    + intros s. unfold Regex.opt.
      destruct s as [|u s]; [discriminate|]. destruct (is_MK u); discriminate.
  - intros s. rewrite star_total.
    + unfold Regex.opt. destruct (snd (span is_space s)) as [|u s'];
        [discriminate|]. destruct (is_MK u); discriminate.
    + intros s'. unfold Regex.opt.
      destruct s' as [|u s']; [discriminate|]. destruct (is_MK u); discriminate.
Qed.


End TextFacts.

Section CodecFacts.

Local Open Scope string_scope.



Lemma fixed_upper (c : ascii) :
  is_digit_or_dot c || is_space c = true -> to_upper c = c.
Proof. destruct c as [[] [] [] [] [] [] [] []]; intros H; try reflexivity; discriminate H. Qed.

Lemma class_disjoint (c : ascii) :
  is_digit_or_dot c = true -> is_space c = false /\ is_MK c = false.
Proof. destruct c as [[] [] [] [] [] [] [] []]; intros H; try discriminate H; split; reflexivity. Qed.

Lemma space_not_numeric (c : ascii) :
  is_space c = true -> is_digit_or_dot c = false /\ is_MK c = false.
Proof. destruct c as [[] [] [] [] [] [] [] []]; intros H; try discriminate H; split; reflexivity. Qed.

Lemma smap_app (f : ascii -> ascii) (a b : string) :
  smap f (a ++ b) = smap f a ++ smap f b.
Proof. induction a as [|c a IH]; simpl; [reflexivity | now rewrite IH]. Qed.

Lemma smap_fixed (f : ascii -> ascii) (p : ascii -> bool) (a : string) :
  (forall c, p c = true -> f c = c) -> sall p a = true -> smap f a = a.
Proof.
  intros Hf. induction a as [|c a IH]; simpl; intros H; [reflexivity|].
  apply andb_prop in H as [Hc Ha]. now rewrite (Hf c Hc), (IH Ha).
Qed.


Lemma lstrip_span (s : string) : snd (span is_space s) = lstrip s.
Proof.
  induction s as [|c s IH]; simpl; [reflexivity|].
  destruct (is_space c); [|reflexivity].
  destruct (span is_space s); simpl in *. exact IH.
Qed.

Lemma rstrip_after (a : string) (u : ascii) (rest : string) :
  is_space u = false ->
  rstrip (a ++ String u rest) = a ++ String u (rstrip rest).
Proof.
  intros Hu. induction a as [|c a IH]; simpl.
  - rewrite Hu. destruct (rstrip rest); reflexivity.
  - rewrite IH. destruct a; reflexivity.
Qed.

Lemma parse_price_unfold (s : string) :
  parse_price (Text s) =
    let t := upper (strip s) in
    match fst (span is_digit_or_dot t) with
    | EmptyString => Ok (PyInt 0)
    | String _ _ as r =>
        number <- of_text r ;;
        let multiplier := unit_of (lstrip (snd (span is_digit_or_dot t))) in
        if String.eqb multiplier "M" then
          Ok (PyFloat (fmul number (of_Z 1000000)))
        else if String.eqb multiplier "K" then
          Ok (PyFloat (fmul number (of_Z 1000)))
        else Ok (PyFloat number)
    end.
Proof.
  unfold parse_price. cbn [str_cell]. rewrite price_re_match.
  cbv zeta. destruct (fst (span is_digit_or_dot (upper (strip s))));
    [reflexivity|].
  now rewrite lstrip_span.
Qed.


(** The price decoder on a text whose trimmed upper-case form is a
    numeric run [run] followed by [tail]. *)
Lemma parse_price_run (s run tail : string) (v : float) :
  upper (strip s) = run ++ tail ->
  truthy run = true ->
  sall is_digit_or_dot run = true ->
  stops is_digit_or_dot tail ->
  of_text run = Ok v ->
  parse_price (Text s) =
    let multiplier := unit_of (lstrip tail) in
    if String.eqb multiplier "M" then
      Ok (PyFloat (fmul v (of_Z 1000000)))
    else if String.eqb multiplier "K" then
      Ok (PyFloat (fmul v (of_Z 1000)))
    else Ok (PyFloat v).
Proof.
  intros Ht Hne Hrun Htail Hv.
  rewrite parse_price_unfold. cbv zeta.
  rewrite Ht, (span_run _ _ _ Hrun Htail). cbn [fst snd].
  destruct run as [|c run]; [discriminate Hne|].
  rewrite Hv. reflexivity.
Qed.


End CodecFacts.

Section CodecFactsMore.

Local Open Scope string_scope.

Lemma upper_numeric (a : string) :
  sall is_digit_or_dot a = true -> upper a = a.
Proof.
  apply smap_fixed. intros c Hc. apply fixed_upper. now rewrite Hc.
Qed.

Lemma upper_spaces (a : string) : sall is_space a = true -> upper a = a.
Proof.
  apply smap_fixed. intros c Hc. apply fixed_upper. rewrite Hc.
  apply orb_true_r.
Qed.

Lemma lstrip_spaces (ws : string) (u : ascii) (rest : string) :
  sall is_space ws = true -> is_space u = false ->
  lstrip (ws ++ String u rest) = String u rest.
Proof.
  intros Hws Hu. induction ws as [|c ws IH]; simpl.
  - now rewrite Hu.
  - simpl in Hws. apply andb_prop in Hws as [Hc Hws]. rewrite Hc. auto.
Qed.

Lemma stops_spaces_unit (ws : string) (u : ascii) (rest : string) :
  sall is_space ws = true -> is_digit_or_dot u = false ->
  stops is_digit_or_dot (ws ++ String u rest).
Proof.
  intros Hws Hu. destruct ws as [|c ws]; simpl; [exact Hu|].
  simpl in Hws. apply andb_prop in Hws as [Hc _].
  now apply space_not_numeric in Hc.
Qed.

(** The trimmed upper-case form of a mantissa, spaces, a unit letter and
    any further text. *)
Lemma upper_strip_detached (m ws : string) (u : ascii) (rest : string) :
  truthy m = true ->
  sall is_digit_or_dot m = true ->
  sall is_space ws = true ->
  is_space u = false ->
  upper (strip (m ++ ws ++ String u rest)) =
    m ++ ws ++ String (to_upper u) (upper (rstrip rest)).
Proof.
  intros Hne Hm Hws Hu. unfold strip.
  assert (Hl : lstrip (m ++ ws ++ String u rest) = m ++ ws ++ String u rest).
  { destruct m as [|c m]; [discriminate Hne|]. simpl in *.
    apply andb_prop in Hm as [Hc _].
    apply class_disjoint in Hc as [Hc _]. now rewrite Hc. }
  rewrite Hl, <- app_assoc_s, (rstrip_after _ _ _ Hu).
  unfold upper. rewrite !smap_app. cbn [smap].
  fold upper. rewrite (upper_numeric _ Hm), (upper_spaces _ Hws).
  now rewrite app_assoc_s.
Qed.

Lemma parse_price_detached (m ws : string) (u : ascii) (rest : string)
      (v : float) :
  truthy m = true ->
  sall is_digit_or_dot m = true ->
  sall is_space ws = true ->
  of_text m = Ok v ->
  is_MK (to_upper u) = true ->
  parse_price (Text (m ++ ws ++ String u rest)) =
    Ok (PyFloat (fmul v (of_Z (if (code (to_upper u) =? 77)%Z
                               then 1000000 else 1000)))).
Proof.
  intros Hne Hm Hws Hv Hu.
  assert (Hsp : is_space u = false /\ is_space (to_upper u) = false /\
                is_digit_or_dot (to_upper u) = false).
  { revert Hu. destruct u as [[] [] [] [] [] [] [] []]; intros Hu;
      try discriminate Hu; repeat split; reflexivity. }
  destruct Hsp as (Hsu & Hsu' & Hdu).
  rewrite (parse_price_run _ m (ws ++ String (to_upper u) (upper (rstrip rest))) v
             (upper_strip_detached _ _ _ _ Hne Hm Hws Hsu) Hne Hm
             (stops_spaces_unit _ _ _ Hws Hdu) Hv).
  cbv zeta. rewrite (lstrip_spaces _ _ _ Hws Hsu'). unfold unit_of.
  rewrite Hu. revert Hu.
  destruct u as [[] [] [] [] [] [] [] []]; intros Hu; try discriminate Hu;
    reflexivity.
Qed.

End CodecFactsMore.

(* ================================================================== *)
(** * Facts about rounding to an integer *)
(* ================================================================== *)

Section Rounding.

Lemma rhe_bounds (n d : Z) :
  0 < d ->
  2 * round_half_even n d * d - d <= 2 * n <= 2 * round_half_even n d * d + d.
Proof.
  intros Hd. unfold round_half_even.
  pose proof (Z.div_mod n d ltac:(lia)) as Hdm.
  pose proof (Z.mod_pos_bound n d Hd) as Hr.
  destruct (Z.compare_spec (2 * (n mod d)) d) as [H|H|H];
    [destruct (Z.even (n / d))| |]; nia.
Qed.

Lemma rhe_unique (n d k : Z) :
  0 < d -> 2 * k * d - d < 2 * n < 2 * k * d + d -> round_half_even n d = k.
Proof.
  intros Hd Hk. pose proof (rhe_bounds n d Hd) as Hm.
  set (m := round_half_even n d) in *. nia.
Qed.

Lemma rhe_Q_bounds (n : Z) (p : positive) :
  (inject_Z (round_half_even n (Zpos p)) - (1 # 2) <= n # p /\
   n # p <= inject_Z (round_half_even n (Zpos p)) + (1 # 2))%Q.
Proof.
  pose proof (rhe_bounds n (Zpos p) ltac:(lia)) as Hm.
  set (m := round_half_even n (Zpos p)) in *.
  unfold Qle, Qminus, Qplus, Qopp, inject_Z. simpl. split; nia.
Qed.

Lemma rhe_Q_unique (n : Z) (p : positive) (k : Z) :
  (inject_Z k - (1 # 2) < n # p)%Q -> (n # p < inject_Z k + (1 # 2))%Q ->
  round_half_even n (Zpos p) = k.
Proof.
  unfold Qlt, Qminus, Qplus, Qopp, inject_Z. simpl. intros H1 H2.
  apply rhe_unique; lia.
Qed.

End Rounding.

(* ================================================================== *)
(** * Facts about powers of two and the binary logarithm *)
(* ================================================================== *)

Section Pow2.

Lemma pow2_pos (e : Z) : (0 < 2 ^ e)%Q.
Proof. apply Qpower_0_lt. reflexivity. Qed.

Lemma pow2_add (a b : Z) : (2 ^ (a + b) == 2 ^ a * 2 ^ b)%Q.
Proof. apply Qpower_plus. discriminate. Qed.

Lemma pow2_nonneg (e : Z) : 0 <= e -> (2 ^ e == inject_Z (2 ^ e))%Q.
Proof. intros He. symmetry. apply (Zpower_Qpower 2 e He). Qed.

Lemma pow2_neg (e : Z) : 0 <= e -> (2 ^ (- e) == 1 # Z.to_pos (2 ^ e))%Q.
Proof.
  intros He. rewrite Qpower_opp, (pow2_nonneg e He).
  pose proof (Z.pow_pos_nonneg 2 e ltac:(lia) He) as Hp.
  destruct (2 ^ e)%Z as [|P|P] eqn:E; try lia. reflexivity.
Qed.

Lemma pow2_le (a b : Z) : a <= b -> (2 ^ a <= 2 ^ b)%Q.
Proof. intros H. apply Qpower_le_compat_l; [exact H | discriminate]. Qed.

Lemma pow2_lt_inv (a b : Z) : (2 ^ a < 2 ^ b)%Q -> a < b.
Proof. intros H. apply (Qpower_lt_compat_l_inv 2); [exact H | reflexivity]. Qed.

End Pow2.

Section FloorLog2.

Lemma below_pow2_spec (n : Z) (p : positive) (e : Z) :
  below_pow2 n (Zpos p) e = true <-> (n # p < 2 ^ e)%Q.
Proof.
  unfold below_pow2. destruct (Z.leb_spec 0 e) as [He|He].
  - rewrite (pow2_nonneg e He), Z.ltb_lt. unfold Qlt, inject_Z.
    cbn [Qnum Qden]. lia.
  - replace e with (- - e) at 2 by lia.
    rewrite (pow2_neg (- e) ltac:(lia)), Z.ltb_lt. unfold Qlt.
    cbn [Qnum Qden].
    pose proof (Z.pow_pos_nonneg 2 (- e) ltac:(lia) ltac:(lia)) as Hp.
    rewrite Z2Pos.id by exact Hp. lia.
Qed.

Lemma log2_Q (n : Z) :
  0 < n -> (2 ^ Z.log2 n <= inject_Z n /\ inject_Z n < 2 ^ (Z.log2 n + 1))%Q.
Proof.
  intros Hn. pose proof (Z.log2_spec n Hn) as [H1 H2].
  pose proof (Z.log2_nonneg n) as H0.
  rewrite (pow2_nonneg _ H0), (pow2_nonneg (Z.log2 n + 1) ltac:(lia)).
  rewrite <- Zle_Qle, <- Zlt_Qlt. replace (Z.log2 n + 1) with (Z.succ (Z.log2 n)) by lia.
  now split.
Qed.

Lemma floor_log2_spec (n : Z) (p : positive) :
  0 < n ->
  (2 ^ floor_log2 n (Zpos p) <= n # p /\
   n # p < 2 ^ (floor_log2 n (Zpos p) + 1))%Q.
Proof.
  intros Hn. unfold floor_log2.
  set (e := Z.log2 n - Z.log2 (Zpos p)).
  destruct (log2_Q n Hn) as [Hn1 Hn2].
  destruct (log2_Q (Zpos p) ltac:(lia)) as [Hp1 Hp2].
  assert (Hx : ((n # p) * inject_Z (Zpos p) == inject_Z n)%Q).
  { unfold Qeq, Qmult, inject_Z. cbn [Qnum Qden]. lia. }
  assert (Hpp : (0 < inject_Z (Zpos p))%Q) by reflexivity.
  assert (Hlo : (2 ^ (e - 1) < n # p)%Q).
  { pose proof (pow2_add (e - 1) (Z.log2 (Zpos p) + 1)) as Ha.
    replace (e - 1 + (Z.log2 (Z.pos p) + 1)) with (Z.log2 n) in Ha
      by (unfold e; lia).
    pose proof (pow2_pos (e - 1)).
    set (a := (2 ^ (e - 1))%Q) in *. set (x := n # p) in *.
    set (P := inject_Z (Zpos p)) in *. set (N := inject_Z n) in *.
    set (b := (2 ^ (Z.log2 (Z.pos p) + 1))%Q) in *.
    set (c := (2 ^ Z.log2 n)%Q) in *.
    nra. }
  assert (Hhi : (n # p < 2 ^ (e + 1))%Q).
  { pose proof (pow2_add (e + 1) (Z.log2 (Zpos p))) as Ha.
    replace (e + 1 + Z.log2 (Z.pos p)) with (Z.log2 n + 1) in Ha
      by (unfold e; lia).
    pose proof (pow2_pos (e + 1)).
    set (a := (2 ^ (e + 1))%Q) in *. set (x := n # p) in *.
    set (P := inject_Z (Zpos p)) in *. set (N := inject_Z n) in *.
    set (b := (2 ^ (Z.log2 (Z.pos p)))%Q) in *.
    set (c := (2 ^ (Z.log2 n + 1))%Q) in *.
    nra. }
  destruct (below_pow2 n (Zpos p) e) eqn:Hb.
  - apply below_pow2_spec in Hb.
    replace (e - 1 + 1) with e by lia. split; [apply Qlt_le_weak|]; assumption.
  - split; [|exact Hhi].
    apply Qnot_lt_le. intros Hc. apply below_pow2_spec in Hc. congruence.
Qed.

End FloorLog2.

(* ================================================================== *)
(** * Facts about rounding to binary64 *)
(* ================================================================== *)

Section Round64.

(** [scaled_round] rounds the rational [q * 2 ^ (- ex)]. *)
Lemma scaled_frac (n : Z) (p : positive) (ex : Z) :
  exists (N : Z) (P : positive),
    scaled_round n (Zpos p) ex = round_half_even N (Zpos P) /\
    (N # P == (n # p) * 2 ^ (- ex))%Q.
Proof.
  unfold scaled_round. destruct (Z.leb_spec 0 ex) as [He|He].
  - pose proof (Z.pow_pos_nonneg 2 ex ltac:(lia) He) as Hp.
    exists n, (p * Z.to_pos (2 ^ ex))%positive. split.
    + rewrite Pos2Z.inj_mul, Z2Pos.id by exact Hp. reflexivity.
    + rewrite (pow2_neg ex He). unfold Qeq, Qmult. cbn [Qnum Qden]. lia.
  - exists (n * 2 ^ (- ex)), p. split; [reflexivity|].
    rewrite (pow2_nonneg (- ex) ltac:(lia)).
    unfold Qeq, Qmult, inject_Z. cbn [Qnum Qden]. lia.
Qed.

Lemma scaled_round_bounds (n : Z) (p : positive) (ex : Z) :
  (inject_Z (scaled_round n (Zpos p) ex) - (1 # 2) <= (n # p) * 2 ^ (- ex) /\
   (n # p) * 2 ^ (- ex) <= inject_Z (scaled_round n (Zpos p) ex) + (1 # 2))%Q.
Proof.
  destruct (scaled_frac n p ex) as (N & P & -> & <-). apply rhe_Q_bounds.
Qed.

Lemma scaled_round_unique (n : Z) (p : positive) (ex k : Z) :
  (inject_Z k - (1 # 2) < (n # p) * 2 ^ (- ex))%Q ->
  ((n # p) * 2 ^ (- ex) < inject_Z k + (1 # 2))%Q ->
  scaled_round n (Zpos p) ex = k.
Proof.
  destruct (scaled_frac n p ex) as (N & P & -> & <-). apply rhe_Q_unique.
Qed.




(** In the normal range above 1, rounding yields a finite float within
    [2 ^ -53] of the argument, relatively, and not below 1. *)
Lemma round64_normal (s : bool) (q : Q) :
  (1 <= q)%Q -> (q < 2 ^ 1023)%Q ->
  exists (m : positive) (ex : Z),
    round64 s q = S754_finite s m ex /\
    (inject_Z (Zpos m) * 2 ^ ex - q <= q * unit_roundoff)%Q /\
    (q - inject_Z (Zpos m) * 2 ^ ex <= q * unit_roundoff)%Q /\
    (1 <= inject_Z (Zpos m) * 2 ^ ex)%Q.
Proof.
  intros Hlo Hhi. destruct q as [n p].
  assert (Hn : 0 < n).
  { unfold Qle in Hlo. cbn [Qnum Qden] in Hlo. lia. }
  unfold round64. cbn [Qnum Qden].
  destruct (Z.leb_spec n 0) as [Hc|_]; [lia|].
  destruct (floor_log2_spec n p Hn) as [He1 He2].
  set (e := floor_log2 n (Zpos p)) in *.
  assert (He0 : 0 <= e).
  { assert (H : 0 < e + 1); [|lia]. apply pow2_lt_inv.
    change (2 ^ 0)%Q with 1%Q. lra. }
  assert (He9 : e < 1023).
  { apply pow2_lt_inv. lra. }
  rewrite Z.max_l by lia.
  set (ex := e - 52).
  destruct (scaled_round_bounds n p ex) as [Hm1 Hm2].
  set (m0 := scaled_round n (Zpos p) ex) in *.
  pose proof (pow2_pos ex) as HE.
  pose proof (pow2_add ex (- ex)) as Hinv.
  replace (ex + - ex) with 0 in Hinv by lia. change (2 ^ 0)%Q with 1%Q in Hinv.
  pose proof (pow2_add ex 52) as H52.
  replace (ex + 52) with e in H52 by (unfold ex; lia).
  pose proof (pow2_add ex 53) as H53.
  replace (ex + 53) with (e + 1) in H53 by (unfold ex; lia).
  pose proof (pow2_pos (- ex)) as HEi.
  change (2 ^ 52)%Q with (inject_Z (2 ^ 52)) in H52.
  change (2 ^ 53)%Q with (inject_Z (2 ^ 53)) in H53.
  set (E := (2 ^ ex)%Q) in *. set (Ei := (2 ^ (- ex))%Q) in *.
  set (x := n # p) in *.
  set (a := (2 ^ e)%Q) in *. set (b := (2 ^ (e + 1))%Q) in *.
  (* the scaled rational lies in [2^52, 2^53) *)
  assert (Ht1 : (inject_Z (2 ^ 52) <= x * Ei)%Q).
  { assert (H : (x * Ei * E == x)%Q) by (rewrite <- Qmult_assoc, (Qmult_comm Ei), <- Hinv; ring).
    nra. }
  assert (Ht2 : (x * Ei < inject_Z (2 ^ 53))%Q).
  { assert (H : (x * Ei * E == x)%Q) by (rewrite <- Qmult_assoc, (Qmult_comm Ei), <- Hinv; ring).
    nra. }
  assert (Hlow : 2 ^ 52 <= m0).
  { assert (H : (inject_Z (2 ^ 52) - (1 # 2) <= inject_Z m0)%Q) by lra.
    revert H. unfold Qle, Qminus, Qplus, Qopp, inject_Z.
    cbn [Qnum Qden]. lia. }
  assert (Hupp : m0 <= 2 ^ 53).
  { assert (H : (inject_Z m0 <= inject_Z (2 ^ 53) + (1 # 2))%Q) by lra.
    revert H. unfold Qle, Qminus, Qplus, Qopp, inject_Z.
    cbn [Qnum Qden]. lia. }
  assert (Hval : forall (m : positive) (ex' : Z),
             (inject_Z (Zpos m) * 2 ^ ex' == inject_Z m0 * E)%Q ->
             (inject_Z (Zpos m) * 2 ^ ex' - x <= x * unit_roundoff)%Q /\
             (x - inject_Z (Zpos m) * 2 ^ ex' <= x * unit_roundoff)%Q /\
             (1 <= inject_Z (Zpos m) * 2 ^ ex')%Q).
  { intros m ex' ->.
    assert (H : (x * Ei * E == x)%Q) by (rewrite <- Qmult_assoc, (Qmult_comm Ei), <- Hinv; ring).
    assert (Hm0 : (inject_Z (2 ^ 52) <= inject_Z m0)%Q) by (rewrite <- Zle_Qle; exact Hlow).
    assert (Ha1 : (1 <= a)%Q).
    { change 1%Q with (2 ^ 0)%Q. apply pow2_le. exact He0. }
    unfold unit_roundoff. set (M := inject_Z m0) in *.
    set (c := inject_Z (2 ^ 52)) in *. 
    assert (Hc : (c == 4503599627370496)%Q) by reflexivity.
    repeat split; nra. }
  destruct (Z.eqb_spec m0 (2 ^ 53)) as [Heq|Hne].
  - change (2 ^ 52) with (Zpos 4503599627370496).
    destruct (Z.leb_spec (ex + 1) 971) as [_|Hc]; [|unfold ex in Hc; lia].
    exists 4503599627370496%positive, (ex + 1). split; [reflexivity|].
    apply Hval. rewrite Heq, (pow2_add ex 1). fold E.
    change (2 ^ 1)%Q with 2%Q.
    change (inject_Z (2 ^ 53)) with (inject_Z (Zpos 4503599627370496) * 2)%Q. ring.
  - destruct m0 as [|m|m] eqn:Em0; try lia.
    destruct (Z.leb_spec ex 971) as [_|Hc]; [|unfold ex in Hc; lia].
    exists m, ex. split; [reflexivity|]. apply Hval. reflexivity.
Qed.

End Round64.

(* ================================================================== *)
(** * Facts about decimal numerals *)
(* ================================================================== *)

Section DecimalFacts.

Local Open Scope string_scope.

Lemma digit_char_spec (d : Z) :
  (0 <= d <= 9)%Z ->
  is_digit (digit_char d) = true /\ digit_val (digit_char d) = d.
Proof.
  intros Hd.
  assert (H : (d = 0 \/ d = 1 \/ d = 2 \/ d = 3 \/ d = 4 \/ d = 5 \/
               d = 6 \/ d = 7 \/ d = 8 \/ d = 9)%Z) by lia.
  repeat (destruct H as [-> | H]; [split; reflexivity|]).
  subst d. split; reflexivity.
Qed.

Lemma sall_app (p : ascii -> bool) (a b : string) :
  sall p (a ++ b) = sall p a && sall p b.
Proof.
  induction a as [|c a IH]; simpl; [reflexivity|].
  now rewrite IH, andb_assoc.
Qed.

Lemma sall_weaken (p q : ascii -> bool) (a : string) :
  (forall c, p c = true -> q c = true) -> sall p a = true -> sall q a = true.
Proof.
  intros Hpq. induction a as [|c a IH]; simpl; [reflexivity|].
  intros H. apply andb_prop in H as [Hc Ha]. now rewrite (Hpq c Hc), (IH Ha).
Qed.

Lemma truthy_app (a b : string) : truthy a = true -> truthy (a ++ b) = true.
Proof. now destruct a. Qed.

Lemma digits_val_app (a b : string) (acc : Z) :
  digits_val acc (a ++ b) = digits_val (digits_val acc a) b.
Proof.
  revert acc. induction a as [|c a IH]; intros acc; simpl; [reflexivity|].
  apply IH.
Qed.

Lemma digits_acc_spec (fuel : nat) :
  forall (n : Z) (acc : string),
    (0 <= n < 10 ^ Z.of_nat (S fuel))%Z ->
    exists ds, digits_acc (S fuel) n acc = ds ++ acc /\ numeral ds n.
Proof.
  induction fuel as [|fuel IH]; intros n acc Hn;
    cbn [digits_acc];
    pose proof (Z.mod_pos_bound n 10 ltac:(lia)) as Hr;
    destruct (digit_char_spec (n mod 10) ltac:(lia)) as [Hd Hv];
    (destruct (Z.ltb_spec n 10) as [Hlt|Hge];
     [ exists (String (digit_char (n mod 10)) EmptyString);
       split; [reflexivity|]; unfold numeral;
       cbn [sall truthy digits_val String.length];
       rewrite Hd, Hv; repeat split; intros acc0;
       change (10 ^ Z.of_nat 1)%Z with 10%Z;
       rewrite Z.mod_small by lia; lia |]).
  - change (10 ^ Z.of_nat 1)%Z with 10%Z in Hn. lia.
  - assert (Hq : (0 <= n / 10 < 10 ^ Z.of_nat (S fuel))%Z).
    { split; [apply Z.div_pos; lia|].
      apply Z.div_lt_upper_bound; [lia|].
      rewrite (Nat2Z.inj_succ (S fuel)), Z.pow_succ_r in Hn by lia. lia. }
    destruct (IH (n / 10)%Z (String (digit_char (n mod 10)) acc) Hq)
      as (ds & Hds & Ha & Ht & Hval).
    exists (ds ++ String (digit_char (n mod 10)) EmptyString). split.
    + cbn [digits_acc] in Hds. rewrite Hds, app_assoc_s. reflexivity.
    + unfold numeral. rewrite sall_app, Ha. cbn [sall]. rewrite Hd.
      split; [reflexivity|]. split; [now apply truthy_app|].
      intros acc0. rewrite digits_val_app, Hval. cbn [digits_val].
      rewrite Hv, length_app. cbn [String.length].
      rewrite Nat.add_1_r, Nat2Z.inj_succ, Z.pow_succ_r by lia.
      pose proof (Z.div_mod n 10 ltac:(lia)). lia.
Qed.

Lemma str_nat_numeral (n : Z) : (0 <= n)%Z -> numeral (str_nat n) n.
Proof.
  intros Hn. unfold str_nat.
  destruct (digits_acc_spec (Z.to_nat (Z.log2 n)) n EmptyString)
    as (ds & Hds & Hnum).
  - split; [exact Hn|].
    rewrite Nat2Z.inj_succ, Z2Nat.id by apply Z.log2_nonneg.
    destruct (Z.eq_dec n 0) as [->|Hne]; [reflexivity|].
    pose proof (Z.log2_spec n ltac:(lia)) as [_ H2].
    apply (Z.lt_le_trans _ _ _ H2).
    apply Z.pow_le_mono_l. pose proof (Z.log2_nonneg n). lia.
  - rewrite Hds, app_empty_r. exact Hnum.
Qed.

Lemma str_nat_digit (d : Z) :
  (0 <= d <= 9)%Z -> str_nat d = String (digit_char d) EmptyString.
Proof.
  intros Hd. unfold str_nat. cbn [digits_acc].
  destruct (Z.ltb_spec d 10) as [_|Hc]; [|lia].
  now rewrite Z.mod_small by lia.
Qed.

Lemma digit_is_numeric (c : ascii) :
  is_digit c = true -> is_digit_or_dot c = true.
Proof. unfold is_digit_or_dot. now intros ->. Qed.

(** [one_decimal k] is a numeric run that [float] reads as [k / 10]. *)
Lemma one_decimal_shape (k : Z) :
  (0 <= k)%Z ->
  truthy (one_decimal k) = true /\
  sall is_digit_or_dot (one_decimal k) = true /\
  of_text (one_decimal k) = Ok (round64 false (k # 10)).
Proof.
  intros Hk. unfold one_decimal.
  pose proof (Z.mod_pos_bound k 10 ltac:(lia)) as Hr.
  destruct (str_nat_numeral (k / 10) ltac:(apply Z.div_pos; lia))
    as (Hi1 & Hi2 & Hi3).
  rewrite (str_nat_digit (k mod 10) ltac:(lia)).
  destruct (digit_char_spec (k mod 10) ltac:(lia)) as [Hd Hv].
  split; [now apply truthy_app|]. split.
  - rewrite sall_app, (sall_weaken _ _ _ digit_is_numeric Hi1).
    cbn [append sall]. now rewrite (digit_is_numeric _ Hd).
  - unfold of_text.
    rewrite (span_run is_digit (str_nat (k / 10)) _ Hi1) by reflexivity.
    cbn [append]. change (code "." =? 46)%Z with true. cbn iota.
    cbn [span]. rewrite Hd. cbn iota.
    rewrite Hi2. cbn [orb].
    rewrite digits_val_app, (Hi3 0%Z). cbn [digits_val String.length].
    rewrite Hv. do 2 f_equal.
    change (Z.to_pos (10 ^ Z.of_nat 1)) with 10%positive.
    f_equal. pose proof (Z.div_mod k 10 ltac:(lia)). lia.
Qed.

End DecimalFacts.

(* ================================================================== *)
(** * Facts about the arithmetic of the encoder *)
(* ================================================================== *)

Section EncodeFacts.

Lemma tenths_bounds (m : positive) (e : Z) :
  (inject_Z (tenths m e) - (1 # 2) <= 10 * (inject_Z (Zpos m) * 2 ^ e) /\
   10 * (inject_Z (Zpos m) * 2 ^ e) <= inject_Z (tenths m e) + (1 # 2))%Q.
Proof.
  pose proof (scaled_round_bounds (10 * Zpos m) 1 (- e)) as H.
  rewrite Z.opp_involutive in H. unfold tenths.
  assert (Hq : (10 * Zpos m # 1 == 10 * inject_Z (Zpos m))%Q) by reflexivity.
  rewrite Hq in H. rewrite Qmult_assoc. exact H.
Qed.

Lemma tenths_unique (m : positive) (e k : Z) :
  (inject_Z k - (1 # 2) < 10 * (inject_Z (Zpos m) * 2 ^ e))%Q ->
  (10 * (inject_Z (Zpos m) * 2 ^ e) < inject_Z k + (1 # 2))%Q ->
  tenths m e = k.
Proof.
  intros H1 H2. unfold tenths. apply scaled_round_unique;
    rewrite Z.opp_involutive;
    assert (Hq : (10 * Zpos m # 1 == 10 * inject_Z (Zpos m))%Q) by reflexivity;
    rewrite Hq, <- Qmult_assoc; assumption.
Qed.

Lemma of_Z_unit (U : Z) :
  is_unit U ->
  exists (mU : positive) (eU : Z),
    of_Z U = S754_finite false mU eU /\
    (inject_Z (Zpos mU) * 2 ^ eU == inject_Z U)%Q.
Proof.
  intros [-> | ->].
  - exists 8796093022208000%positive, (-43). split; reflexivity.
  - exists 8589934592000000%positive, (-33). split; reflexivity.
Qed.

Lemma num_ge_spec (x : num) (z : Z) :
  num_finite x = true ->
  (num_ge x z = true <-> (inject_Z z <= num_value x)%Q).
Proof.
  destruct x as [a|f]; cbn [num_finite num_ge num_value].
  - intros _. rewrite Z.leb_le, Zle_Qle. reflexivity.
  - destruct f; cbn [is_finite ge_Z]; intros H; try discriminate H;
      apply Qle_bool_iff.
Qed.

(** True division by a unit of a finite number that is at least the unit:
    a finite float within [2 ^ -53] of the quotient, relatively. *)
Lemma truediv_unit (x : num) (U : Z) :
  is_unit U ->
  num_finite x = true ->
  (inject_Z U <= num_value x)%Q ->
  (num_value x < 2 ^ 1024)%Q ->
  exists (m : positive) (ex : Z),
    num_truediv x U = Ok (S754_finite false m ex) /\
    (inject_Z (Zpos m) * 2 ^ ex - num_value x / inject_Z U
       <= num_value x / inject_Z U * unit_roundoff)%Q /\
    (num_value x / inject_Z U - inject_Z (Zpos m) * 2 ^ ex
       <= num_value x / inject_Z U * unit_roundoff)%Q /\
    (1 <= inject_Z (Zpos m) * 2 ^ ex)%Q.
Proof.
  intros HU Hfin Hge Hlt.
  assert (HU0 : (1000 <= inject_Z U)%Q).
  { destruct HU as [-> | ->]; unfold Qle; cbn; lia. }
  assert (Hp : (2 ^ 1024 == 2 * 2 ^ 1023)%Q) by reflexivity.
  set (B := (2 ^ 1023)%Q) in *.
  assert (HB : (0 < B)%Q) by reflexivity.
  assert (Hq : forall q, (q == num_value x / inject_Z U)%Q ->
                         (1 <= q)%Q /\ (q < B)%Q).
  { intros q ->. split.
    - apply Qle_shift_div_l; lra.
    - apply Qlt_shift_div_r; [lra|]. nra. }
  destruct x as [a|f]; cbn [num_finite num_value num_truediv] in *.
  - assert (Ha : 1000 <= a).
    { rewrite Zle_Qle. change (inject_Z 1000) with 1000%Q. lra. }
    assert (HUp : 0 < U) by (destruct HU; lia).
    assert (Heq : (Z.abs a # Z.to_pos U == inject_Z a / inject_Z U)%Q).
    { rewrite Z.abs_eq by lia. rewrite Qmake_Qdiv, Z2Pos.id by exact HUp.
      reflexivity. }
    destruct (Hq _ Heq) as [H1 H2].
    destruct (round64_normal (a <? 0) _ H1 H2) as (m & ex & Hr & Hb1 & Hb2 & Hb3).
    destruct (Z.ltb_spec a 0) as [Hc|_]; [lia|].
    exists m, ex. rewrite Hr. split; [reflexivity|].
    rewrite <- Heq. now repeat split.
  - destruct (of_Z_unit U HU) as (mU & eU & HfU & HvU). rewrite HfU.
    destruct f as [s|s| |s m e]; cbn [is_finite] in Hfin; try discriminate Hfin.
    + (* a zero is below the unit *)
      exfalso. unfold F2Q in Hge. destruct s; cbn in Hge; lra.
    + destruct s.
      * exfalso. unfold F2Q in Hge. cbn [sign_bit magnitude] in Hge.
        pose proof (pow2_pos e).
        assert (0 < inject_Z (Zpos m))%Q by reflexivity.
        set (M := inject_Z (Zpos m)) in *. set (E := (2 ^ e)%Q) in *. nra.
      * unfold F2Q in *. cbn [sign_bit magnitude fdiv xorb] in *.
        assert (Heq : (inject_Z (Zpos m) * 2 ^ e / (inject_Z (Zpos mU) * 2 ^ eU)
                       == inject_Z (Zpos m) * 2 ^ e / inject_Z U)%Q)
          by (rewrite HvU; reflexivity).
        destruct (Hq _ Heq) as [H1 H2].
        destruct (round64_normal false _ H1 H2) as (m' & ex & Hr & Hb1 & Hb2 & Hb3).
        exists m', ex. rewrite Hr. split; [reflexivity|].
        rewrite <- Heq. now repeat split.
Qed.

End EncodeFacts.

(* ================================================================== *)
(** * The round trip through a unit text *)
(* ================================================================== *)

Section RoundTrip.

Lemma num_ge_false (x : num) (z : Z) :
  num_finite x = true -> (num_value x < inject_Z z)%Q -> num_ge x z = false.
Proof.
  intros Hfin Hlt. destruct (num_ge x z) eqn:E; [|reflexivity].
  apply (num_ge_spec x z Hfin) in E. lra.
Qed.

(** The unit branches of the encoder: the mantissa is a finite float [v]
    near [x / U], and the text is [v] to one decimal, then the letter. *)
Lemma encode_unit (x : num) (U : Z) :
  is_unit U ->
  num_finite x = true ->
  (inject_Z U <= num_value x)%Q ->
  (U = 1000 -> (num_value x < 1000000)%Q) ->
  (num_value x < 2 ^ 1024)%Q ->
  exists (m : positive) (ex : Z),
    num_truediv x U = Ok (S754_finite false m ex) /\
    format_price_for_csv x =
      Ok (one_decimal (tenths m ex) ++ unit_text U)%string /\
    (inject_Z (Zpos m) * 2 ^ ex - num_value x / inject_Z U
       <= num_value x / inject_Z U * unit_roundoff)%Q /\
    (num_value x / inject_Z U - inject_Z (Zpos m) * 2 ^ ex
       <= num_value x / inject_Z U * unit_roundoff)%Q /\
    (1 <= inject_Z (Zpos m) * 2 ^ ex)%Q.
Proof.
  intros HU Hfin Hge HK Hlt.
  destruct (truediv_unit x U HU Hfin Hge Hlt) as (m & ex & Hd & Hb).
  exists m, ex. split; [exact Hd|]. split; [|exact Hb].
  unfold format_price_for_csv. destruct HU as [-> | ->].
  - rewrite (num_ge_false x 1000000 Hfin (HK eq_refl)).
    rewrite (proj2 (num_ge_spec x 1000 Hfin) Hge).
    rewrite Hd. reflexivity.
  - rewrite (proj2 (num_ge_spec x 1000000 Hfin) Hge).
    rewrite Hd. reflexivity.
Qed.

Lemma decode_unit (k U : Z) :
  0 <= k -> is_unit U ->
  parse_price (Text (one_decimal k ++ unit_text U)) =
    Ok (PyFloat (fmul (round64 false (k # 10)) (of_Z U))).
Proof.
  intros Hk HU. destruct (one_decimal_shape k Hk) as (Ht & Ha & Hv).
  destruct HU as [-> | ->].
  - apply (parse_price_detached (one_decimal k) EmptyString "K" EmptyString
             _ Ht Ha eq_refl Hv eq_refl).
  - apply (parse_price_detached (one_decimal k) EmptyString "M" EmptyString
             _ Ht Ha eq_refl Hv eq_refl).
Qed.

(** Encoding what a unit text decodes to gives the text back. *)
Lemma div_unit_mul (v : Q) (U : Z) :
  is_unit U -> (v / inject_Z U * inject_Z U == v)%Q.
Proof.
  intros HU. rewrite Qmult_comm. apply Qmult_div_r.
  destruct HU as [-> | ->]; discriminate.
Qed.

Lemma tenth_mul (k : Z) : ((k # 10) * 10 == inject_Z k)%Q.
Proof. unfold Qeq, Qmult, inject_Z. cbn [Qnum Qden]. lia. Qed.

Lemma reencode_unit (k U : Z) :
  is_unit U -> 11 <= k <= tenths_max U ->
  format_price_for_csv (PyFloat (fmul (round64 false (k # 10)) (of_Z U))) =
    Ok (one_decimal k ++ unit_text U)%string.
Proof.
  intros HU Hk.
  assert (Hk15 : k <= 1000000000000000).
  { unfold tenths_max in Hk. destruct HU as [-> | ->]; cbn in Hk; lia. }
  assert (HkQ : (11 <= inject_Z k)%Q /\ (inject_Z k <= 1000000000000000)%Q).
  { change 11%Q with (inject_Z 11).
    change 1000000000000000%Q with (inject_Z 1000000000000000).
    rewrite <- !Zle_Qle. split; lia. }
  destruct HkQ as [HkQ1 HkQ2].
  assert (HkK : U = 1000 -> (inject_Z k <= 9999)%Q).
  { intros ->. cbn in Hk. change 9999%Q with (inject_Z 9999).
    rewrite <- Zle_Qle. lia. }
  pose proof (tenth_mul k) as Hq1.
  assert (Hbig : (10000000000000000000000000 < 2 ^ 1023)%Q) by reflexivity.
  assert (Hbig' : (2 ^ 1023 < 2 ^ 1024)%Q) by reflexivity.
  set (B := (2 ^ 1023)%Q) in *. set (B' := (2 ^ 1024)%Q) in *.
  set (K := inject_Z k) in *.
  set (q1 := k # 10) in *.
  assert (H1 : (1 <= q1)%Q /\ (q1 < B)%Q) by (split; qarith).
  destruct (round64_normal false _ (proj1 H1) (proj2 H1))
    as (m1 & e1 & Hr1 & Hu1 & Hl1 & Hone1).
  rewrite Hr1.
  destruct (of_Z_unit U HU) as (mU & eU & HfU & HvU). rewrite HfU.
  cbn [fmul xorb magnitude].
  set (v1 := (inject_Z (Zpos m1) * 2 ^ e1)%Q) in *.
  set (vU := (inject_Z (Zpos mU) * 2 ^ eU)%Q) in *.
  assert (HUQ : (inject_Z U == 1000)%Q \/ (inject_Z U == 1000000)%Q).
  { destruct HU as [-> | ->]; [left | right]; reflexivity. }
  unfold unit_roundoff in *.
  set (q2 := (v1 * vU)%Q) in *.
  assert (Hq2 : (q2 == v1 * inject_Z U)%Q) by (unfold q2; rewrite HvU; reflexivity).
  set (u := inject_Z U) in *.
  assert (H2 : (1 <= q2)%Q /\ (q2 < B)%Q).
  { destruct HUQ as [HUQ | HUQ]; rewrite HUQ in Hq2; split; qarith. }
  destruct (round64_normal false _ (proj1 H2) (proj2 H2))
    as (m2 & e2 & Hr2 & Hu2 & Hl2 & Hone2).
  rewrite Hr2.
  set (y := S754_finite false m2 e2).
  assert (Hy : num_value (PyFloat y) = (inject_Z (Zpos m2) * 2 ^ e2)%Q) by reflexivity.
  set (v2 := (inject_Z (Zpos m2) * 2 ^ e2)%Q) in *.
  pose proof (div_unit_mul v2 U HU) as Hq3. fold u in Hq3.
  destruct (encode_unit (PyFloat y) U HU eq_refl) as (m3 & e3 & _ & He & Hu3 & Hl3 & _).
  - rewrite Hy. fold u.
    destruct HUQ as [HUQ | HUQ]; rewrite HUQ in Hq2 |- *; qarith.
  - intros HU1. rewrite Hy. specialize (HkK HU1).
    assert (HUQ' : (u == 1000)%Q) by (unfold u; rewrite HU1; reflexivity).
    rewrite HUQ' in Hq2. qarith.
  - rewrite Hy. destruct HUQ as [HUQ | HUQ]; rewrite HUQ in Hq2; qarith.
  - rewrite He. do 3 f_equal. rewrite Hy in Hu3, Hl3. fold u in Hu3, Hl3.
    set (q3 := (v2 / u)%Q) in *.
    set (v3 := (inject_Z (Zpos m3) * 2 ^ e3)%Q) in *.
    apply tenths_unique; fold v3 K;
      destruct HUQ as [HUQ | HUQ]; rewrite HUQ in Hq2, Hq3; qarith.
Qed.

End RoundTrip.

(* ================================================================== *)
(** * The round trip below a thousand *)
(* ================================================================== *)

Section SmallPrices.

Local Open Scope string_scope.

Lemma rstrip_fixed (s : string) :
  sall (fun c => negb (is_space c)) s = true -> rstrip s = s.
Proof.
  induction s as [|c s IH]; simpl; [reflexivity|].
  intros H. apply andb_prop in H as [Hc Hs]. rewrite (IH Hs).
  destruct s; [|reflexivity].
  apply negb_true_iff in Hc. now rewrite Hc.
Qed.

Lemma strip_numeric (s : string) :
  sall is_digit_or_dot s = true -> strip s = s.
Proof.
  intros Hs. unfold strip.
  assert (Hn : sall (fun c => negb (is_space c)) s = true).
  { apply (sall_weaken is_digit_or_dot); [|exact Hs].
    intros c Hc. apply class_disjoint in Hc as [Hc _]. now rewrite Hc. }
  assert (Hl : lstrip s = s).
  { destruct s as [|c s]; [reflexivity|]. simpl in *.
    apply andb_prop in Hn as [Hc _]. apply negb_true_iff in Hc.
    now rewrite Hc. }
  rewrite Hl. now apply rstrip_fixed.
Qed.

(** A numeral without a unit decodes to the float of its number. *)
Lemma decode_numeral (a : Z) :
  (0 <= a)%Z ->
  parse_price (Text (str_nat a)) = Ok (PyFloat (round64 false (inject_Z a))).
Proof.
  intros Ha. destruct (str_nat_numeral a Ha) as (Hd & Ht & Hv).
  pose proof (sall_weaken _ _ _ digit_is_numeric Hd) as Hdd.
  assert (Hof : of_text (str_nat a) = Ok (round64 false (inject_Z a))).
  { unfold of_text.
    rewrite <- (app_empty_r (str_nat a)) at 1.
    rewrite (span_run is_digit _ EmptyString Hd I).
    rewrite Ht, (Hv 0%Z). reflexivity. }
  rewrite (parse_price_run (str_nat a) (str_nat a) EmptyString
             (round64 false (inject_Z a)));
    [reflexivity| |exact Ht|exact Hdd|exact I|exact Hof].
  rewrite (strip_numeric _ Hdd), (upper_numeric _ Hdd), app_empty_r.
  reflexivity.
Qed.

End SmallPrices.

Section SmallPricesCheck.

Lemma reencode_numeral_all :
  forallb (fun n => reencodes_numeral (Z.of_nat n)) (seq 0 1000) = true.
Proof. vm_compute. reflexivity. Qed.

Lemma reencode_numeral (a : Z) :
  0 <= a < 1000 ->
  format_price_for_csv (PyFloat (round64 false (inject_Z a))) =
    Ok (str_nat a).
Proof.
  intros Ha. pose proof reencode_numeral_all as H.
  rewrite forallb_forall in H.
  specialize (H (Z.to_nat a)). rewrite Z2Nat.id in H by lia.
  assert (Hin : In (Z.to_nat a) (seq 0 1000)) by (apply in_seq; lia).
  apply H in Hin. unfold reencodes_numeral in Hin.
  destruct (format_price_for_csv _) as [s|e]; [|discriminate Hin].
  apply String.eqb_eq in Hin. now subst s.
Qed.

(** Below a thousand the encoder prints the integer part. *)
Lemma encode_small (x : num) :
  num_finite x = true ->
  (0 <= num_value x)%Q -> (num_value x < 1000)%Q ->
  exists a : Z,
    0 <= a < 1000 /\
    format_price_for_csv x = Ok (str_nat a) /\
    (inject_Z a <= num_value x)%Q /\ (num_value x < inject_Z a + 1)%Q.
Proof.
  intros Hfin H0 H1.
  assert (Hm : (num_value x < inject_Z 1000000)%Q).
  { change (inject_Z 1000000) with 1000000%Q. lra. }
  unfold format_price_for_csv.
  rewrite (num_ge_false x 1000000 Hfin Hm), (num_ge_false x 1000 Hfin H1).
  destruct x as [a|f]; cbn [num_finite num_value num_int bind] in *.
  - assert (Ha : 0 <= a < 1000).
    { change 0%Q with (inject_Z 0) in H0.
      change 1000%Q with (inject_Z 1000) in H1.
      rewrite <- Zle_Qle in H0. rewrite <- Zlt_Qlt in H1. lia. }
    exists a. split; [exact Ha|]. unfold str_int.
    destruct (Z.ltb_spec a 0) as [Hc|_]; [lia|].
    split; [reflexivity|]. split; lra.
  - destruct f as [s|s| |s m e]; cbn [is_finite] in Hfin; try discriminate Hfin.
    + exists 0. cbn [to_int bind]. split; [lia|]. split; [reflexivity|].
      destruct s; split; unfold Qle, Qlt; cbn; lia.
    + unfold F2Q in *. cbn [sign_bit magnitude] in *.
      assert (Hmp : (0 < inject_Z (Zpos m))%Q) by reflexivity.
      pose proof (pow2_pos e) as Hep.
      destruct s.
      { exfalso. set (M := inject_Z (Zpos m)) in *. set (E := (2 ^ e)%Q) in *.
        clearbody M E. nra. }
      cbn [to_int bind].
      set (a := if 0 <=? e then Z.pos m * 2 ^ e else Z.pos m / 2 ^ (- e)).
      assert (Hfl : (inject_Z a <= inject_Z (Zpos m) * 2 ^ e)%Q /\
                    (inject_Z (Zpos m) * 2 ^ e < inject_Z a + 1)%Q).
      { unfold a. destruct (Z.leb_spec 0 e) as [He|He].
        - rewrite (pow2_nonneg e He), <- inject_Z_mult. split; lra.
        - assert (Hpow : (2 ^ e == 1 # Z.to_pos (2 ^ (- e)))%Q).
          { rewrite <- (Z.opp_involutive e) at 1. apply pow2_neg. lia. }
          rewrite Hpow.
          pose proof (Z.pow_pos_nonneg 2 (- e) ltac:(lia) ltac:(lia)) as Hp.
          pose proof (Z.div_mod (Zpos m) (2 ^ (- e)) ltac:(lia)) as Hdm.
          pose proof (Z.mod_pos_bound (Zpos m) (2 ^ (- e)) Hp) as Hr.
          set (P := (2 ^ (- e))%Z) in *. clearbody P.
          destruct P as [|p0|p0]; try lia.
          change (Z.to_pos (Zpos p0)) with p0.
          unfold Qle, Qlt, Qmult, Qplus, inject_Z. cbn [Qnum Qden].
          rewrite ?Pos.mul_1_l, ?Pos.mul_1_r, ?Z.mul_1_r. split; nia. }
      assert (Ha : 0 <= a < 1000).
      { destruct Hfl as [Hf1 Hf2].
        assert (Hq : (inject_Z (-1) < inject_Z a)%Q /\
                     (inject_Z a < inject_Z 1000)%Q).
        { change (inject_Z (-1)) with (-1)%Q.
          change (inject_Z 1000) with 1000%Q.
          set (v := (inject_Z (Zpos m) * 2 ^ e)%Q) in *.
          set (A := inject_Z a) in *. clearbody v A. split; lra. }
        rewrite <- !Zlt_Qlt in Hq. lia. }
      exists a. split; [exact Ha|]. unfold str_int.
      destruct (Z.ltb_spec a 0) as [Hc|_]; [lia|].
      split; [reflexivity|]. exact Hfl.
Qed.

End SmallPricesCheck.

(* ================================================================== *)
(** * Decoding, encoding, decoding *)
(* ================================================================== *)

Section Idempotence.

Lemma decode_encode_unit (k U : Z) :
  is_unit U -> 10 <= k <= tenths_max U + 1 ->
  decode_encode (PyFloat (fmul (round64 false (k # 10)) (of_Z U))) =
    Ok (PyFloat (fmul (round64 false (k # 10)) (of_Z U))).
Proof.
  intros HU Hk.
  destruct (Z.eq_dec k 10) as [-> | H10].
  { destruct HU as [-> | ->]; vm_compute; reflexivity. }
  destruct (Z.eq_dec k (tenths_max U + 1)) as [-> | Hmax].
  { destruct HU as [-> | ->]; vm_compute; reflexivity. }
  unfold decode_encode.
  rewrite (reencode_unit k U HU ltac:(lia)). cbn [bind].
  apply decode_unit; [lia | exact HU].
Qed.

(** In a unit branch the text of the encoder is [one_decimal k] and the
    letter, with [k] in the range the round trip is proved for. *)
Lemma encode_unit_tenths (x : num) (U : Z) :
  is_unit U ->
  num_finite x = true ->
  (inject_Z U <= num_value x)%Q ->
  (U = 1000 -> (num_value x < 1000000)%Q) ->
  (num_value x < 100000000000000000000)%Q ->
  exists k : Z,
    10 <= k <= tenths_max U + 1 /\
    format_price_for_csv x = Ok (one_decimal k ++ unit_text U)%string /\
    (inject_Z k - 10 * (num_value x / inject_Z U)
       <= (1 # 2) + 10 * (num_value x / inject_Z U) * unit_roundoff)%Q /\
    (10 * (num_value x / inject_Z U) - inject_Z k
       <= (1 # 2) + 10 * (num_value x / inject_Z U) * unit_roundoff)%Q.
Proof.
  intros HU Hfin Hge HK Hlt.
  assert (Hbig : (100000000000000000000 < 2 ^ 1024)%Q) by reflexivity.
  destruct (encode_unit x U HU Hfin Hge HK ltac:(lra))
    as (m & ex & _ & He & Hu & Hl & Hone).
  destruct (tenths_bounds m ex) as [Ht1 Ht2].
  exists (tenths m ex). split; [|split; [exact He|]].
  - pose proof (div_unit_mul (num_value x) U HU) as Hq.
    set (k := tenths m ex) in *.
    set (v := (inject_Z (Zpos m) * 2 ^ ex)%Q) in *.
    set (q := (num_value x / inject_Z U)%Q) in *.
    set (X := num_value x) in *.
    assert (Hlo : (inject_Z 9 < inject_Z k)%Q).
    { change (inject_Z 9) with 9%Q. set (K := inject_Z k) in *. qarith. }
    rewrite <- Zlt_Qlt in Hlo. split; [lia|].
    destruct HU as [-> | ->].
    + assert (Hhi : (inject_Z k < inject_Z 10001)%Q).
      { change (inject_Z 10001) with 10001%Q.
        change (inject_Z 1000) with 1000%Q in *.
        specialize (HK eq_refl). set (K := inject_Z k) in *. qarith. }
      rewrite <- Zlt_Qlt in Hhi. cbn. lia.
    + assert (Hhi : (inject_Z k < inject_Z 1000000000000001)%Q).
      { change (inject_Z 1000000000000001) with 1000000000000001%Q.
        change (inject_Z 1000000) with 1000000%Q in *.
        set (K := inject_Z k) in *. qarith. }
      rewrite <- Zlt_Qlt in Hhi. cbn. lia.
  - set (k := tenths m ex) in *.
    set (v := (inject_Z (Zpos m) * 2 ^ ex)%Q) in *.
    set (q := (num_value x / inject_Z U)%Q) in *.
    set (K := inject_Z k) in *. split; qarith.
Qed.

End Idempotence.

(* ================================================================== *)
(** * The shape of what the encoder prints *)
(* ================================================================== *)

Section EncoderShape.

Lemma one_decimal_place (k : Z) : 0 <= k -> one_place (one_decimal k).
Proof.
  intros Hk. unfold one_decimal.
  pose proof (Z.mod_pos_bound k 10 ltac:(lia)) as Hr.
  destruct (str_nat_numeral (k / 10) ltac:(apply Z.div_pos; lia))
    as (Hi1 & Hi2 & _).
  rewrite (str_nat_digit (k mod 10) ltac:(lia)).
  destruct (digit_char_spec (k mod 10) ltac:(lia)) as [Hd _].
  exists (str_nat (k / 10)), (digit_char (k mod 10)). now repeat split.
Qed.

Lemma tenths_nonneg (m : positive) (e : Z) : 0 <= tenths m e.
Proof.
  destruct (tenths_bounds m e) as [_ H].
  pose proof (pow2_pos e) as He.
  assert (Hm : (0 < inject_Z (Zpos m))%Q) by reflexivity.
  assert (Hq : (inject_Z (-1) < inject_Z (tenths m e))%Q).
  { change (inject_Z (-1)) with (-1)%Q.
    set (K := inject_Z (tenths m e)) in *. set (M := inject_Z (Zpos m)) in *.
    set (E := (2 ^ e)%Q) in *. clearbody K M E. nra. }
  rewrite <- Zlt_Qlt in Hq. lia.
Qed.

(** [int] of a finite float cuts the fraction off. *)
Lemma to_int_spec (s : bool) (m : positive) (e : Z) :
  exists a : Z,
    to_int (S754_finite s m e) = Ok (if s then - a else a) /\
    0 <= a /\
    (inject_Z a <= inject_Z (Zpos m) * 2 ^ e)%Q /\
    (inject_Z (Zpos m) * 2 ^ e < inject_Z a + 1)%Q.
Proof.
  cbn [to_int].
  set (a := if 0 <=? e then Z.pos m * 2 ^ e else Z.pos m / 2 ^ (- e)).
  exists a. split; [reflexivity|].
  assert (Hfl : (inject_Z a <= inject_Z (Zpos m) * 2 ^ e)%Q /\
                (inject_Z (Zpos m) * 2 ^ e < inject_Z a + 1)%Q).
  { unfold a. destruct (Z.leb_spec 0 e) as [He|He].
    - rewrite (pow2_nonneg e He), <- inject_Z_mult. split; lra.
    - assert (Hpow : (2 ^ e == 1 # Z.to_pos (2 ^ (- e)))%Q).
      { rewrite <- (Z.opp_involutive e) at 1. apply pow2_neg. lia. }
      rewrite Hpow.
      pose proof (Z.pow_pos_nonneg 2 (- e) ltac:(lia) ltac:(lia)) as Hp.
      pose proof (Z.div_mod (Zpos m) (2 ^ (- e)) ltac:(lia)) as Hdm.
      pose proof (Z.mod_pos_bound (Zpos m) (2 ^ (- e)) Hp) as Hr.
      set (P := (2 ^ (- e))%Z) in *. clearbody P.
      destruct P as [|p0|p0]; try lia.
      change (Z.to_pos (Zpos p0)) with p0.
      unfold Qle, Qlt, Qmult, Qplus, inject_Z. cbn [Qnum Qden].
      rewrite ?Pos.mul_1_l, ?Pos.mul_1_r, ?Z.mul_1_r. split; nia. }
  split; [|exact Hfl].
  destruct Hfl as [_ Hf2].
  pose proof (pow2_pos e) as Hep.
  assert (Hmp : (0 < inject_Z (Zpos m))%Q) by reflexivity.
  assert (Hq : (inject_Z (-1) < inject_Z a)%Q).
  { change (inject_Z (-1)) with (-1)%Q.
    set (A := inject_Z a) in *. set (M := inject_Z (Zpos m)) in *.
    set (E := (2 ^ e)%Q) in *. clearbody A M E. nra. }
  rewrite <- Zlt_Qlt in Hq. lia.
Qed.

Lemma num_int_truncates (x : num) :
  num_finite x = true ->
  exists n : Z, num_int x = Ok n /\ truncation (num_value x) n.
Proof.
  intros Hfin. destruct x as [a|f]; cbn [num_finite num_int num_value] in *.
  - exists a. split; [reflexivity|]. unfold truncation.
    change (Qabs (inject_Z a)) with (inject_Z (Z.abs a)).
    repeat split.
    + apply Qle_refl.
    + set (A := inject_Z (Z.abs a)). clearbody A. lra.
    + intros H. change 0%Q with (inject_Z 0) in H. now rewrite <- Zle_Qle in H.
    + intros H. change 0%Q with (inject_Z 0) in H. now rewrite <- Zle_Qle in H.
  - destruct f as [s|s| |s m e]; cbn [is_finite] in Hfin; try discriminate Hfin.
    + exists 0. split; [reflexivity|]. unfold truncation.
      destruct s; repeat split; try (intros _; lia);
        unfold Qle, Qlt; cbn; lia.
    + destruct (to_int_spec s m e) as (a & Ha & Ha0 & Hf1 & Hf2).
      rewrite Ha. eexists. split; [reflexivity|].
      pose proof (pow2_pos e) as Hep.
      assert (Hmp : (0 < inject_Z (Zpos m))%Q) by reflexivity.
      assert (Hv : (0 < inject_Z (Zpos m) * 2 ^ e)%Q).
      { set (M := inject_Z (Zpos m)) in *. set (E := (2 ^ e)%Q) in *.
        clearbody M E. nra. }
      unfold truncation, F2Q. cbn [sign_bit magnitude].
      set (v := (inject_Z (Zpos m) * 2 ^ e)%Q) in *.
      assert (Hab : (Qabs (if s then - v else v) == v)%Q).
      { destruct s; [rewrite Qabs_opp|]; apply Qabs_pos; lra. }
      assert (Hzn : Z.abs (if s then - a else a) = a) by (destruct s; lia).
      rewrite Hab, Hzn. repeat split; try assumption.
      * destruct s; intros H; [clearbody v; lra | lia].
      * destruct s; intros H; [lia | clearbody v; lra].
Qed.

(** The encoder, branch by branch, on the numbers a float can hold. *)
Lemma format_price_branches (x : num) :
  num_finite x = true ->
  (num_value x < 2 ^ 1024)%Q ->
  (forall U : Z,
      is_unit U ->
      (inject_Z U <= num_value x)%Q ->
      (U = 1000 -> (num_value x < 1000000)%Q) ->
      exists (a : float) (k : Z),
        num_truediv x U = Ok a /\
        (1 <= F2Q a)%Q /\
        (inject_Z k - (1 # 2) <= 10 * F2Q a)%Q /\
        (10 * F2Q a <= inject_Z k + (1 # 2))%Q /\
        format_1f a = one_decimal k /\
        one_place (one_decimal k) /\
        format_price_for_csv x = Ok (one_decimal k ++ unit_text U)%string) /\
  ((num_value x < 1000)%Q ->
   exists n : Z,
     num_int x = Ok n /\
     truncation (num_value x) n /\
     format_price_for_csv x = Ok (str_int n)).
Proof.
  intros Hfin Hlt. split.
  - intros U HU Hge HK.
    destruct (encode_unit x U HU Hfin Hge HK Hlt)
      as (m & ex & Hd & He & _ & _ & Hone).
    destruct (tenths_bounds m ex) as [Ht1 Ht2].
    exists (S754_finite false m ex), (tenths m ex).
    repeat split; try assumption.
    apply one_decimal_place, tenths_nonneg.
  - intros Hs.
    destruct (num_int_truncates x Hfin) as (n & Hn & Ht).
    exists n. repeat split; try apply Ht; try exact Hn.
    assert (Hm : (num_value x < inject_Z 1000000)%Q).
    { change (inject_Z 1000000) with 1000000%Q. lra. }
    unfold format_price_for_csv.
    rewrite (num_ge_false x 1000000 Hfin Hm), (num_ge_false x 1000 Hfin Hs).
    rewrite Hn. reflexivity.
Qed.

End EncoderShape.

(* ================================================================== *)
(** * Facts about the table *)
(* ================================================================== *)

Section TableFacts.





Lemma truthy_spec (s : string) : truthy s = true <-> s <> EmptyString.
Proof. destruct s; simpl; split; congruence. Qed.

Lemma form_complete_spec (f : add_form) :
  form_complete f = true <-> valid_submission f.
Proof.
  unfold form_complete, valid_submission.
  rewrite !andb_true_iff, !truthy_spec, !Z.ltb_lt. tauto.
Qed.

(** The encoder answers on every number of the float range that is not
    negative. *)
Lemma format_price_total (x : num) :
  num_finite x = true ->
  (0 <= num_value x)%Q -> (num_value x < 2 ^ 1024)%Q ->
  exists s, format_price_for_csv x = Ok s.
Proof.
  intros Hfin H0 Hlt.
  destruct (format_price_branches x Hfin Hlt) as [Hu Hs].
  destruct (Qlt_le_dec (num_value x) 1000) as [H1|H1].
  - destruct (Hs H1) as (n & _ & _ & He). eauto.
  - destruct (Qlt_le_dec (num_value x) 1000000) as [H2|H2].
    + destruct (Hu 1000 (or_introl eq_refl) H1 (fun _ => H2))
        as (a & k & _ & _ & _ & _ & _ & _ & He). eauto.
    + destruct (Hu 1000000 (or_intror eq_refl) H2 ltac:(discriminate))
        as (a & k & _ & _ & _ & _ & _ & _ & He). eauto.
Qed.





End TableFacts.

(* ================================================================== *)
(** * Agreement with the binary64 of the Standard Library *)
(* ================================================================== *)

(** The arithmetic above rounds the exact result once; [SFmul] and [SFdiv]
    of the Standard Library shift and round mantissas.  On two thousand
    mantissas with one decimal, for both units, they give the same floats. *)
Lemma arithmetic_agrees_with_SpecFloat :
  forallb (fun n => agrees_with_SpecFloat 1000 (Z.of_nat n) &&
                    agrees_with_SpecFloat 1000000 (Z.of_nat n))
          (seq 1 2000) = true.
Proof. vm_compute. reflexivity. Qed.


(* ================================================================== *)
(** * The statements of the specification                             *)
(* ================================================================== *)

Section Decoders.

Local Open Scope string_scope.

(** C1 (defect of the code).  Both decoders are meant to answer a number on
    every text, with 0 as the fallback.  They do not: a leading run of digits
    and points that is not a number, such as a lone point or a run with two
    points, is matched by the pattern and handed to [float], whose
    [ValueError] neither decoder catches. *)
Theorem decoders_raise_on_malformed_run :
  parse_price (Text ".") = Raise ValueError /\
  parse_price (Text "1.2.3") = Raise ValueError /\
  parse_space (Text ".") = Raise ValueError /\
  parse_space (Text "1.2.3") = Raise ValueError.
Proof. repeat split; reflexivity. Qed.









End Decoders.

Section Encoder.

Local Open Scope string_scope.



(** C4, as stated, fails twice.  At the largest float the first round trip
    overflows to infinity, which the encoder prints as "infM" and the
    decoder reads as 0, so the second round trip does not give the first
    back.  And at 4,100,000 the round trip gives the float just below
    4,100,000, not the price rounded to one decimal of the mantissa. *)
Lemma decode_encode_counterexample :
  (exists y z : num,
      decode_encode (PyFloat (S754_finite false 9007199254740991 971)) = Ok y /\
      decode_encode y = Ok z /\ y <> z) /\
  (exists y : float,
      decode_encode (PyInt 4100000) = Ok (PyFloat y) /\
      (F2Q y < 4100000)%Q).
Proof.
  split.
  - exists (PyFloat (S754_infinity false)), (PyInt 0).
    split; [vm_compute; reflexivity|]. split; [reflexivity | discriminate].
  - exists (S754_finite false 8804682956799999 (-31)).
    split; [reflexivity|]. unfold Qlt. simpl. lia.
Qed.

(** C4, amended.  For every finite number from 0 up to, but not including,
    [10 ^ 20], the second round trip through the encoder and the decoder
    gives the result of the first back.  That result is, below a thousand,
    the float of the integer part of [x]; from there on it is the float
    product of the unit and of the float nearest to [k / 10], where [k] is
    ten times the mantissa rounded to an integer. *)
Theorem decode_encode_settles (x : num) :
  num_finite x = true ->
  (0 <= num_value x)%Q ->
  (num_value x < 10 ^ 20)%Q ->
  exists y : num,
    decode_encode x = Ok y /\ decode_encode y = Ok y /\ price_rounding x y.
Proof.
  intros Hfin H0 Hlt.
  destruct (Qlt_le_dec (num_value x) 1000) as [Hs|Hk].
  - destruct (encode_small x Hfin H0 Hs) as (a & Ha & He & Hf1 & Hf2).
    exists (PyFloat (round64 false (inject_Z a))). repeat split.
    + unfold decode_encode. rewrite He. cbn [bind].
      apply decode_numeral. lia.
    + unfold decode_encode. rewrite (reencode_numeral a Ha). cbn [bind].
      apply decode_numeral. lia.
    + left. exists a. now repeat split.
  - assert (HU : exists U, is_unit U /\ (inject_Z U <= num_value x)%Q /\
                           (U = 1000 -> (num_value x < 1000000)%Q)).
    { destruct (Qlt_le_dec (num_value x) 1000000) as [Hm|Hm].
      - exists 1000. split; [now left|]. split; [exact Hk | intros _; exact Hm].
      - exists 1000000. split; [now right|]. split; [exact Hm | discriminate]. }
    destruct HU as (U & HU & Hge & HK).
    destruct (encode_unit_tenths x U HU Hfin Hge HK Hlt)
      as (k & Hkr & He & Hb1 & Hb2).
    exists (PyFloat (fmul (round64 false (k # 10)) (of_Z U))). repeat split.
    + unfold decode_encode. rewrite He. cbn [bind].
      apply decode_unit; [lia | exact HU].
    + apply decode_encode_unit; assumption.
    + right. exists U, k. now repeat split.
Qed.

Lemma decode_encode_settles_witness :
  exists y : num,
    decode_encode (PyInt 2560000) = Ok y /\ decode_encode y = Ok y /\
    price_rounding (PyInt 2560000) y.
Proof.
  apply (decode_encode_settles (PyInt 2560000)).
  - reflexivity.
  - unfold Qle. simpl. lia.
  - reflexivity.
Defined.

End Encoder.

Section Table.

Local Open Scope string_scope.


(** The comparisons of the filter are those of the exact values, on numbers
    that are finite. *)
Lemma within_value (x : num) (lo hi : Z) :
  num_finite x = true ->
  (within x lo hi <->
   (inject_Z lo <= num_value x)%Q /\ (num_value x <= inject_Z hi)%Q).
Proof.
  intros Hfin. unfold within. rewrite (num_ge_spec x lo Hfin).
  assert (Hle : num_le x hi = true <-> (num_value x <= inject_Z hi)%Q).
  { destruct x as [a|f]; cbn [num_finite num_le num_value] in *.
    - rewrite Z.leb_le, Zle_Qle. reflexivity.
    - destruct f; cbn [is_finite le_Z] in *; try discriminate Hfin;
        apply Qle_bool_iff. }
  rewrite Hle. reflexivity.
Qed.


(** C6.  On a submission whose price the float range can hold (the number
    input yields no other), the handler appends a record exactly when the
    five texts are not empty and the price and the space are positive: then
    the table is the old one followed by the new listing, and the file is
    the new table saved.  Otherwise it answers the error notice and leaves
    the table and the file as they were. *)
Theorem save_project_appends_iff_valid (f : add_form) (w : session) :
  new_price f < 2 ^ 1024 ->
  exists (w' : session) (n : notice),
    save_project f w = Ok (w', n) /\
    (valid_submission f ->
     n = Success /\
     exists price : string,
       format_price_for_csv (PyInt (new_price f)) = Ok price /\
       df w' = (df w ++ [new_listing f price])%list /\
       disk w' = save_data (df w')) /\
    (~ valid_submission f -> n = Error /\ w' = w) /\
    ((exists row, df w' = (df w ++ [row])%list) <-> valid_submission f).
Proof.
  intros Hp. unfold save_project.
  destruct (form_complete f) eqn:Hc.
  - apply form_complete_spec in Hc.
    assert (Hpos : 0 < new_price f) by apply Hc.
    destruct (format_price_total (PyInt (new_price f)) eq_refl) as (price & He).
    + cbn [num_value]. change 0%Q with (inject_Z 0). rewrite <- Zle_Qle. lia.
    + cbn [num_value]. change (2 ^ 1024)%Q with (inject_Z (2 ^ 1024)).
      rewrite <- Zlt_Qlt. exact Hp.
    + rewrite He. cbn [bind]. eexists _, _. split; [reflexivity|].
      cbn [df disk]. split; [|split].
      * intros _. split; [reflexivity|]. exists price. now repeat split.
      * intros Hn. contradiction.
      * split; [intros _; exact Hc | intros _; eexists; reflexivity].
  - assert (Hn : ~ valid_submission f).
    { intros Hv. apply form_complete_spec in Hv. congruence. }
    exists w, Error. split; [reflexivity|]. split; [|split].
    + intros Hv. contradiction.
    + intros _. now split.
    + split; [|intros Hv; contradiction].
      intros (row & Hrow). apply (f_equal (@List.length Listing)) in Hrow.
      rewrite List.length_app in Hrow. simpl in Hrow. lia.
Qed.

Lemma save_project_appends_iff_valid_witness :
  exists (w' : session) (n : notice),
    save_project
      (mkForm "Emaar" "Creek" "Dubai" "Harbour" "Villa" 2500000 1200)
      (mkSession [] (save_data [])) = Ok (w', n) /\
    n = Success /\
    exists price : string,
      df w' = [new_listing
                 (mkForm "Emaar" "Creek" "Dubai" "Harbour" "Villa" 2500000 1200)
                 price] /\
      disk w' = save_data (df w').
Proof.
  destruct (save_project_appends_iff_valid
              (mkForm "Emaar" "Creek" "Dubai" "Harbour" "Villa" 2500000 1200)
              (mkSession [] (save_data [])))
    as (w' & n & Hs & Hv & _).
  - reflexivity.
  - exists w', n. split; [exact Hs|].
    destruct Hv as (Hn & price & _ & Hdf & Hdisk).
    + unfold valid_submission. cbn. repeat split; try discriminate; lia.
    + split; [exact Hn|]. exists price. split; assumption.
Defined.



End Table.
